(** * Chronicle editor: the AI-continuation core

    A shallow embedding of the TypeScript sources

    - [machines/editorMachine]   (the XState machine [editorMachine]),
    - [services/aiService]       ([retryWithBackoff], [continueWriting]),
    - [components/ProseMirrorEditor]  ([streamContent], [appendContent]),
    - [components/FormattingToolbar]  ([updateToolbar]),
    - [App]                      ([handleContinueWriting]),

    together with the properties the specification states about them. *)

From Stdlib Require Import String Ascii ZArith NArith Bool List Lia.
Import ListNotations.

Set Implicit Arguments.

(* ================================================================== *)
(** ** JavaScript strings *)
(* ================================================================== *)

(** A JavaScript string is a sequence of UTF-16 code units.  [trim], the
    regular-expression class [\s], [startsWith], [includes], indexing and
    [length] all work on code units, so this is the representation the
    source computes with. *)
Module JsString.

Definition codeunit := N.
Definition jsstring := list codeunit.

(** A string literal of the source (the literals are all ASCII). *)
Definition lit (s : string) : jsstring :=
  map N_of_ascii (list_ascii_of_string s).

(** ECMAScript [WhiteSpace] and [LineTerminator] code points: what
    [String.prototype.trim] strips and what [/\s/] matches. *)
Definition isWhiteSpace (c : codeunit) : bool :=
  ((9 <=? c) && (c <=? 13)          (* TAB LF VT FF CR *)
   || (c =? 32)                     (* SPACE *)
   || (c =? 160)                    (* NO-BREAK SPACE *)
   || (c =? 5760)                   (* U+1680 *)
   || ((8192 <=? c) && (c <=? 8202))  (* U+2000 .. U+200A *)
   || (c =? 8232) || (c =? 8233)    (* U+2028 U+2029 *)
   || (c =? 8239)                   (* U+202F *)
   || (c =? 8287)                   (* U+205F *)
   || (c =? 12288)                  (* U+3000 *)
   || (c =? 65279))%N.              (* U+FEFF *)

Fixpoint trimStart (s : jsstring) : jsstring :=
  match s with
  | c :: s' => if isWhiteSpace c then trimStart s' else s
  | [] => []
  end.

Definition trimEnd (s : jsstring) : jsstring := rev (trimStart (rev s)).

(** [s.trim()] *)
Definition trim (s : jsstring) : jsstring := trimEnd (trimStart s).

(** [s.startsWith(p)] *)
Fixpoint startsWith (s p : jsstring) : bool :=
  match p, s with
  | [], _ => true
  | a :: p', b :: s' => (a =? b)%N && startsWith s' p'
  | _ :: _, [] => false
  end.

(** [s.endsWith(p)] *)
Definition endsWith (s p : jsstring) : bool := startsWith (rev s) (rev p).

(** [s.includes(p)] *)
Fixpoint includes (s p : jsstring) : bool :=
  startsWith s p
  || match s with
     | _ :: s' => includes s' p
     | [] => false
     end.

(** A string used as a condition: [""] is falsy, every other string is
    truthy. *)
Definition truthy (s : jsstring) : bool :=
  match s with [] => false | _ :: _ => true end.

(** [parts.join("")] *)
Definition join (parts : list jsstring) : jsstring := concat parts.

End JsString.
Import JsString.

(* ================================================================== *)
(** ** The editor state machine ([editorMachine]) *)
(* ================================================================== *)

Module EditorMachine.

Record EditorContext : Type := mkContext {
  content : jsstring;
  isLoading : bool;
  error : option jsstring   (* [None] is [null] *)
}.

Inductive EditorEvent : Type :=
| CONTINUE_WRITING
| CONTENT_UPDATED (content : jsstring)
| AI_RESPONSE (content : jsstring)
| ERROR (error : jsstring)
| RESET.

Inductive StateValue : Type := idle | loading.

(** What an actor of the machine holds: the active state and the
    context. *)
Record Snapshot : Type := mkSnapshot {
  value : StateValue;
  context : EditorContext
}.

(** guard [hasContent] *)
Definition hasContent (context : EditorContext) : bool :=
  (0 <? length (trim (content context)))%nat.

(** The machine's initial configuration. *)
Definition initial : Snapshot :=
  mkSnapshot idle (mkContext (lit "") false None).

(** A transition that an [on] table selects: its target, if it names
    one, and the context its [assign] action produces. *)
Definition Selected : Type := (option StateValue * EditorContext)%type.

(** [states.idle.on] *)
Definition idle_on (ctx : EditorContext) (event : EditorEvent)
  : option Selected :=
  match event with
  | CONTINUE_WRITING =>
      if hasContent ctx then Some (Some loading, ctx) else None
  | CONTENT_UPDATED c =>
      Some (None, mkContext c (isLoading ctx) (error ctx))
  | _ => None
  end.

(** [states.loading.on] *)
Definition loading_on (ctx : EditorContext) (event : EditorEvent)
  : option Selected :=
  match event with
  | AI_RESPONSE c =>
      Some (Some idle,
            mkContext (content ctx ++ lit " " ++ c) false (error ctx))
  | ERROR e =>
      Some (Some idle, mkContext (content ctx) false (Some e))
  | CONTENT_UPDATED c =>
      Some (None, mkContext c (isLoading ctx) (error ctx))
  | _ => None
  end.

(** the machine-level [on] *)
Definition root_on (ctx : EditorContext) (event : EditorEvent)
  : option Selected :=
  match event with
  | RESET => Some (Some idle, mkContext (lit "") false None)
  | _ => None
  end.

(** [entry] actions of a state; only [loading] has one. *)
Definition entry (target : StateValue) (ctx : EditorContext)
  : EditorContext :=
  match target with
  | loading => mkContext (content ctx) true None
  | idle => ctx
  end.

(** The handler of the active state is consulted first, then the
    machine-level one; an event that selects nothing is dropped. *)
Definition select (s : Snapshot) (event : EditorEvent) : option Selected :=
  let state_on :=
    match value s with
    | idle => idle_on
    | loading => loading_on
    end in
  match state_on (context s) event with
  | Some t => Some t
  | None => root_on (context s) event
  end.

(** One macrostep: transition actions run first, then the entry actions
    of the state that is entered.  A transition without a target leaves
    the active state as it is and enters nothing. *)
Definition transition (s : Snapshot) (event : EditorEvent) : Snapshot :=
  match select s event with
  | Some (Some target, ctx) => mkSnapshot target (entry target ctx)
  | Some (None, ctx) => mkSnapshot (value s) ctx
  | None => s
  end.

(** The configuration after a sequence of events sent to a fresh actor. *)
Definition run (events : list EditorEvent) : Snapshot :=
  fold_left transition events initial.

(** The invariant of the reachable configurations: the loading flag is up
    exactly in [loading], and there no error is stored. *)
Definition consistent (s : Snapshot) : Prop :=
  (isLoading (context s) = true <-> value s = loading)
  /\ (value s = loading -> error (context s) = None).

End EditorMachine.

(* ================================================================== *)
(** ** Asynchronous code: state, exceptions and a trace of effects *)
(* ================================================================== *)

Module Async.

(** What a [catch] clause can receive. *)
Inductive Thrown : Type :=
| ErrorObject (message : jsstring)   (* a value that is [instanceof Error] *)
| OtherValue.                        (* any other thrown value *)

(** How an awaited promise, or a block that may throw, settles. *)
Inductive Outcome (A : Type) : Type :=
| Fulfilled (a : A)
| Rejected (e : Thrown).
Arguments Fulfilled {A} a.
Arguments Rejected {A} e.

(** The effects the service performs, in the order they happen. *)
Inductive Event : Type :=
| Invoke                                         (* [fn()] called by the retry loop *)
| Sleep (ms : Z)                                 (* [setTimeout(resolve, ms)] awaited *)
| Generate (model : jsstring) (prompt : jsstring). (* a generation request sent *)

(** The number of calls of [fn] in a trace. *)
Definition invocations (events : list Event) : nat :=
  length (filter (fun ev => match ev with Invoke => true | _ => false end) events).

(** The number of generation requests in a trace. *)
Definition requests (events : list Event) : nat :=
  length (filter (fun ev => match ev with Generate _ _ => true | _ => false end)
                 events).

(** The waits of a trace, in order. *)
Fixpoint sleeps (events : list Event) : list Z :=
  match events with
  | [] => []
  | Sleep ms :: rest => ms :: sleeps rest
  | _ :: rest => sleeps rest
  end.

(** The time a trace spends waiting. *)
Definition waited (events : list Event) : Z :=
  fold_right Z.add 0%Z (sleeps events).

Section Monad.

(** The state of whatever the code talks to (the remote service, or
    the private state of the operation being retried). *)
Variable Env : Type.

Record World : Type := mkWorld {
  env : Env;
  trace : list Event
}.

Definition Js (A : Type) : Type := World -> Outcome A * World.

Definition ret {A} (a : A) : Js A := fun w => (Fulfilled a, w).

Definition throw {A} (e : Thrown) : Js A := fun w => (Rejected e, w).

Definition bind {A B} (m : Js A) (k : A -> Js B) : Js B :=
  fun w =>
    match m w with
    | (Fulfilled a, w') => k a w'
    | (Rejected e, w') => (Rejected e, w')
    end.

(** [try { m } catch (e) { ... }] with the settlement handed to the
    continuation. *)
Definition try {A} (m : Js A) : Js (Outcome A) :=
  fun w => let (o, w') := m w in (Fulfilled o, w').

Definition emit (ev : Event) : Js unit :=
  fun w => (Fulfilled tt, mkWorld (env w) (trace w ++ [ev])).

(** [await new Promise(resolve => setTimeout(resolve, ms))] *)
Definition sleep (ms : Z) : Js unit := emit (Sleep ms).

(** A block that settles as [o] without further effects. *)
Definition settle {A} (o : Outcome A) : Js A := fun w => (o, w).

(** An operation that only touches the environment. *)
Definition perform {A} (f : Env -> Outcome A * Env) : Js A :=
  fun w => let (o, e') := f (env w) in (o, mkWorld e' (trace w)).

End Monad.

Arguments ret {Env A} a.
Arguments throw {Env A} e.
Arguments bind {Env A B} m k.
Arguments try {Env A} m.
Arguments emit {Env} ev.
Arguments sleep {Env} ms.
Arguments perform {Env A} f.
Arguments settle {Env A} o.

Declare Scope js_scope.
Delimit Scope js_scope with js.
Notation "x <- m ;; k" := (bind m (fun x => k))
  (at level 61, m at next level, right associativity) : js_scope.
Notation "m ;; k" := (bind m (fun _ => k))
  (at level 61, right associativity) : js_scope.

End Async.
Import Async.
Local Open Scope js_scope.

(* ================================================================== *)
(** ** The AI service ([retryWithBackoff], [continueWriting]) *)
(* ================================================================== *)

Module AiService.

Record AIContinuationRequest : Type := mkRequest {
  text : jsstring
}.

Record AIContinuationResponse : Type := mkResponse {
  continuation : jsstring
}.

(** [error instanceof Error ? error : new Error(fallback)], as the
    message of the resulting [Error]. *)
Definition normalize (fallback : jsstring) (error : Thrown) : jsstring :=
  match error with
  | ErrorObject message => message
  | OtherValue => fallback
  end.

(** The [lastError] that [retryWithBackoff] makes of what it caught. *)
Definition caught (error : Thrown) : jsstring :=
  normalize (lit "Unknown error") error.

(** The [isRetryable] test of [retryWithBackoff]. *)
Definition isRetryable (message : jsstring) : bool :=
  (includes message (lit "503")
   || includes message (lit "overloaded")
   || includes message (lit "429")
   || includes message (lit "quota")
   || includes message (lit "network")
   || includes message (lit "ECONNRESET")
   || includes message (lit "ETIMEDOUT"))
  && negb (includes message (lit "404"))
  && negb (includes message (lit "not found")).


Section Retry.

Variable Env : Type.
Variable T : Type.

(** The [for] loop of [retryWithBackoff], from iteration [attempt] on;
    [remaining] is [maxRetries - attempt], the number of iterations
    left, and [lastError] the message of the variable of that name
    ([None] while it is [null]).  Delays are whole milliseconds, on which
    [initialDelay * Math.pow(2, attempt)] is exact. *)
Fixpoint retryLoop (fn : Js Env T) (maxRetries : nat) (initialDelay : Z)
         (remaining attempt : nat) (lastError : option jsstring)
  : Js Env T :=
  match remaining with
  | O =>
      throw (ErrorObject
               (match lastError with
                | Some message => message
                | None => lit "Max retries exceeded"
                end))
  | S remaining' =>
      settled <- try (emit Invoke ;; fn) ;;
      match settled with
      | Fulfilled result => ret result
      | Rejected error =>
          let lastError := caught error in
          if negb (isRetryable lastError)
             || (Z.of_nat attempt =? Z.of_nat maxRetries - 1)%Z
          then throw (ErrorObject lastError)
          else
            let delay := (initialDelay * 2 ^ Z.of_nat attempt)%Z in
            sleep delay ;;
            retryLoop fn maxRetries initialDelay
                      remaining' (S attempt) (Some lastError)
      end
  end.

Definition retryWithBackoff (fn : Js Env T) (maxRetries : nat)
           (initialDelay : Z) : Js Env T :=
  retryLoop fn maxRetries initialDelay maxRetries 0 None.

End Retry.

(** *** The provider's response, as far as the client reads it *)

Record Part : Type := mkPart {
  part_text : option jsstring        (* [part.text]; [None] when absent *)
}.

Record Content : Type := mkContent {
  parts : option (list Part)
}.

Record Candidate : Type := mkCandidate {
  content : option Content
}.

Record GenerateContentResponse : Type := mkGenerateContentResponse {
  response_text : Outcome jsstring;  (* what calling [response.text()] does *)
  candidates : option (list Candidate)
}.

Record GenerateContentResult : Type := mkGenerateContentResult {
  response : option GenerateContentResponse
}.

Definition modelsToTry : list jsstring :=
  [ lit "gemini-2.5-flash";
    lit "gemini-2.5-pro";
    lit "gemini-1.5-flash";
    lit "gemini-1.5-pro";
    lit "gemini-pro" ].

Definition newline : jsstring := [10%N].

(** The template literal [prompt]. *)
Definition prompt (userText : jsstring) : jsstring :=
  lit "Write a complete, well-formed paragraph based on the following text or topic."
  ++ newline ++ newline
  ++ lit "Write a full paragraph with 4-6 sentences that is coherent, engaging, and well-structured."
  ++ newline
  ++ lit "If the input is a topic or idea, develop it into a complete paragraph."
  ++ newline
  ++ lit "If the input is a partial thought, complete and expand it into a full paragraph."
  ++ newline ++ newline
  ++ lit "User's text/topic:"
  ++ newline
  ++ userText
  ++ newline ++ newline
  ++ lit "Generate a complete paragraph:".

(** [x || ''] for an optional string [x]. *)
Definition orEmpty (x : option jsstring) : jsstring :=
  match x with
  | Some t => t
  | None => lit ""
  end.

(** [parts.map(part => part.text || '').join('').trim()] *)
Definition joinParts (ps : list Part) : jsstring :=
  trim (join (map (fun part => orEmpty (part_text part)) ps)).

(** The first extraction: [response.text()], and in its [catch] clause
    the parts of the first candidate. *)
Definition primaryText (response : GenerateContentResponse) : jsstring :=
  match response_text response with
  | Fulfilled t => t
  | Rejected _ =>
      match candidates response with
      | Some (candidate :: _) =>
          match content candidate with
          | Some c =>
              match parts c with
              | Some (p :: ps) => joinParts (p :: ps)
              | _ => lit ""
              end
          | None => lit ""
          end
      | _ => lit ""
      end
  end.

(** [!text || !text.trim()] *)
Definition blank (text : jsstring) : bool :=
  negb (truthy text) || negb (truthy (trim text)).

(** The second extraction, from [result.response], run when the first
    one left [text] blank. *)
Definition secondaryText (response : GenerateContentResponse)
           (text : jsstring) : jsstring :=
  if blank text then
    match candidates response with
    | Some (candidate :: _) =>
        match content candidate with
        | Some c =>
            match parts c with
            | Some ps => joinParts ps
            | None => text
            end
        | None => text
        end
    | _ => text
    end
  else text.

(** The messages of the configuration error and of the empty-response
    error. *)
Definition notConfigured : jsstring :=
  lit "Gemini API key is not configured. Please set VITE_GEMINI_API_KEY in your .env file.".

Definition emptyResponse : jsstring :=
  lit "Empty response from API. The model did not generate any content.".

(** From [const response = await result.response] to the [return]: the
    two extractions, the check that text was found, and the result. *)
Definition extractContinuation (response : GenerateContentResponse)
  : Outcome AIContinuationResponse :=
  let text := primaryText response in
  let text := secondaryText response text in
  if blank text
  then Rejected (ErrorObject emptyResponse)
  else Fulfilled (mkResponse (trim text)).

(** The [lastModelError] that the fallback loop makes of what it caught. *)
Definition modelMessage (error : Thrown) : jsstring :=
  normalize (lit "Unknown model error") error.

(** [message.includes('404') || message.includes('not found')] *)
Definition notFound (message : jsstring) : bool :=
  includes message (lit "404") || includes message (lit "not found").

(** The extraction paths as the specification names them: the direct text
    accessor, and the concatenated content parts of the first candidate
    (the secondary field [result.response] is the object [response]
    itself, so the repeated extraction reads the same candidate).  [None]
    when the path is not there or the accessor throws. *)
Definition directText (response : GenerateContentResponse) : option jsstring :=
  match response_text response with
  | Fulfilled t => Some t
  | Rejected _ => None
  end.

Definition candidateText (response : GenerateContentResponse)
  : option jsstring :=
  match candidates response with
  | Some (candidate :: _) =>
      match content candidate with
      | Some c =>
          match parts c with
          | Some ps => Some (join (map (fun part => orEmpty (part_text part)) ps))
          | None => None
          end
      | None => None
      end
  | _ => None
  end.

(** A path yields only empty or white-space text, or nothing at all. *)
Definition yieldsNothing (path : option jsstring) : Prop :=
  match path with
  | Some t => trim t = []
  | None => True
  end.

(** The outer [catch] clause: provider errors become user-facing ones. *)
Definition mapError (error : Thrown) : Thrown :=
  match error with
  | ErrorObject message =>
      if includes message (lit "API_KEY") || includes message (lit "401")
      then ErrorObject
             (lit "Invalid Gemini API key. Please check your VITE_GEMINI_API_KEY.")
      else if includes message (lit "quota") || includes message (lit "429")
      then ErrorObject (lit "API quota exceeded. Please try again later.")
      else if includes message (lit "503")
              || includes message (lit "overloaded")
      then ErrorObject
             (lit "The AI model is currently overloaded. Please try again in a moment.")
      else if includes message (lit "404")
              || includes message (lit "not found")
      then ErrorObject
             (lit "The requested AI model is not available. Please check your API configuration.")
      else ErrorObject (lit "Failed to generate paragraph: " ++ message)
  | OtherValue =>
      ErrorObject (lit "Failed to generate paragraph. Please try again.")
  end.

Section Client.

(** The remote service: a request for [model] with [prompt] settles
    with a result object ([None] for a falsy value) or rejects, and
    may change the service's state. *)
Variable Env : Type.
Variable generateContent :
  jsstring -> jsstring -> Env -> Outcome (option GenerateContentResult) * Env.

(** The message of the engine's [TypeError] for reading a property of
    [undefined]. *)
Variable undefinedMessage : jsstring.

(** [import.meta.env.VITE_GEMINI_API_KEY] *)
Variable apiKey : option jsstring.

(** [await genAI.getGenerativeModel({model, ...}).generateContent(prompt)] *)
Definition callModel (modelName prompt : jsstring)
  : Js Env (option GenerateContentResult) :=
  emit (Generate modelName prompt) ;;
  perform (generateContent modelName prompt).

(** [result && result.response] *)
Definition hasResponse (result : option GenerateContentResult) : bool :=
  match result with
  | Some r => match response r with Some _ => true | None => false end
  | None => false
  end.

(** The [for ... of modelsToTry] loop over the models still to try,
    threading the variables [result] and [lastModelError]; it yields
    their values when the loop is left. *)
Fixpoint modelLoop (prompt : jsstring) (models : list jsstring)
         (result : option GenerateContentResult)
         (lastModelError : option jsstring)
  : Js Env (option GenerateContentResult * option jsstring) :=
  match models with
  | [] => ret (result, lastModelError)
  | modelName :: rest =>
      settled <- try (callModel modelName prompt) ;;
      match settled with
      | Fulfilled result =>
          if hasResponse result
          then ret (result, lastModelError)                  (* break *)
          else modelLoop prompt rest result lastModelError
      | Rejected modelError =>
          let message := modelMessage modelError in
          if notFound message
          then modelLoop prompt rest result (Some message)   (* continue *)
          else throw (ErrorObject message)
      end
  end.

(** The body of the [try] block of the retried closure.  When the loop
    is left with a result that has no [response], [response.text()]
    throws inside the inner [try], and its [catch] clause throws the
    [TypeError] of reading [response.candidates]. *)
Definition generate (prompt : jsstring) : Js Env AIContinuationResponse :=
  left <- modelLoop prompt modelsToTry None None ;;
  let (result, lastModelError) := left in
  match result with
  | None =>
      let last :=
        match lastModelError with
        | Some message =>
            if truthy message then message else lit "Unknown error"
        | None => lit "Unknown error"
        end in
      throw (ErrorObject (lit "No available models found. Last error: " ++ last))
  | Some result =>
      match response result with
      | None => throw (ErrorObject undefinedMessage)
      | Some response => settle (extractContinuation response)
      end
  end.

(** The closure handed to [retryWithBackoff]. *)
Definition attemptGeneration (prompt : jsstring)
  : Js Env AIContinuationResponse :=
  settled <- try (generate prompt) ;;
  match settled with
  | Fulfilled r => ret r
  | Rejected error => throw (mapError error)
  end.

(** [!apiKey] *)
Definition missing (key : option jsstring) : bool :=
  match key with
  | Some k => negb (truthy k)
  | None => true
  end.

Definition continueWriting (request : AIContinuationRequest)
  : Js Env AIContinuationResponse :=
  if missing apiKey
  then throw (ErrorObject notConfigured)
  else
    let userText := trim (text request) in
    if negb (truthy userText)
    then throw (ErrorObject (lit "No text provided."))
    else retryWithBackoff (attemptGeneration (prompt userText)) 3 1000.

End Client.

(** *** The tests of the outer handler, by name *)

(** [message.includes('API_KEY') || message.includes('401')] *)
Definition keyRejected (message : jsstring) : bool :=
  includes message (lit "API_KEY") || includes message (lit "401").

(** [message.includes('quota') || message.includes('429')] *)
Definition quotaExceeded (message : jsstring) : bool :=
  includes message (lit "quota") || includes message (lit "429").

(** [message.includes('503') || message.includes('overloaded')] *)
Definition overloaded (message : jsstring) : bool :=
  includes message (lit "503") || includes message (lit "overloaded").

(** The transport signatures of [isRetryable]. *)
Definition transportFailure (message : jsstring) : bool :=
  includes message (lit "network")
  || includes message (lit "ECONNRESET")
  || includes message (lit "ETIMEDOUT").

(** The signatures the code looks for. *)
Definition signatures : list jsstring :=
  [ lit "503"; lit "overloaded"; lit "429"; lit "quota"; lit "network";
    lit "ECONNRESET"; lit "ETIMEDOUT"; lit "404"; lit "not found";
    lit "API_KEY"; lit "401" ].

(** What an event of a [continueWriting] call for [prompt] may be. *)
Definition expected (prompt : jsstring) (ev : Event) : Prop :=
  match ev with
  | Invoke => True
  | Sleep ms => ms = 1000%Z \/ ms = 2000%Z
  | Generate model p => In model modelsToTry /\ p = prompt
  end.

(** The user-facing messages of the outer handler. *)
Definition invalidKey : jsstring :=
  lit "Invalid Gemini API key. Please check your VITE_GEMINI_API_KEY.".
Definition quotaMessage : jsstring :=
  lit "API quota exceeded. Please try again later.".
Definition overloadedMessage : jsstring :=
  lit "The AI model is currently overloaded. Please try again in a moment.".
Definition modelUnavailable : jsstring :=
  lit "The requested AI model is not available. Please check your API configuration.".
Definition generationFailed : jsstring :=
  lit "Failed to generate paragraph: ".
Definition generationFailedPlain : jsstring :=
  lit "Failed to generate paragraph. Please try again.".

(** The messages [continueWriting] can fail with. *)
Definition userFacing (message : jsstring) : Prop :=
  message = notConfigured
  \/ message = lit "No text provided."
  \/ message = invalidKey
  \/ message = quotaMessage
  \/ message = overloadedMessage
  \/ message = modelUnavailable
  \/ message = generationFailedPlain
  \/ exists original, message = generationFailed ++ original.

(** The trace of [rounds] failed attempts from iteration [attempt] on:
    each call is followed by the wait [d * 2 ^ attempt]. *)
Fixpoint backoff (d : Z) (attempt rounds : nat) : list Event :=
  match rounds with
  | O => []
  | S rounds' =>
      Invoke :: Sleep (d * 2 ^ Z.of_nat attempt)
      :: backoff d (S attempt) rounds'
  end.

(** An attempt at iteration [attempt] that ends the loop: a success, a
    failure that is not retryable, or a failure of the last iteration. *)
Definition decisive {T} (maxRetries attempt : nat) (o : Outcome T) : Prop :=
  match o with
  | Fulfilled _ => True
  | Rejected error =>
      isRetryable (caught error) = false \/ S attempt = maxRetries
  end.

(** How [retryWithBackoff] settles on a decisive attempt. *)
Definition propagated {T} (o : Outcome T) : Outcome T :=
  match o with
  | Fulfilled v => Fulfilled v
  | Rejected error => Rejected (ErrorObject (caught error))
  end.

(** The state of an operation after [k] calls, starting from [e]. *)
Fixpoint afterCalls {Env T : Type} (f : Env -> Outcome T * Env) (k : nat)
         (e : Env) : Env :=
  match k with
  | O => e
  | S k' => afterCalls f k' (snd (f e))
  end.

(** The failures of the fallback loop after which the retry loop of
    [continueWriting] would go on, were an iteration left: what the retry
    test makes of the message the outer handler produces. *)
Definition retriedFailure (error : Thrown) : bool :=
  match error with
  | ErrorObject message =>
      negb (keyRejected message)
      && (quotaExceeded message
          || overloaded message
          || (negb (notFound message) && transportFailure message))
  | OtherValue => false
  end.

(** A message with a not-found signature and no key, quota or overload
    signature. *)
Definition onlyNotFound (message : jsstring) : bool :=
  notFound message
  && negb (keyRejected message)
  && negb (quotaExceeded message)
  && negb (overloaded message).

(** The start of the message raised when no model gave a result. *)
Definition noModels : jsstring :=
  lit "No available models found. Last error: ".

(** The requests for the first [k] models of the list. *)
Definition requestsFor (prompt : jsstring) (k : nat) (models : list jsstring)
  : list Event :=
  map (fun model => Generate model prompt) (firstn k models).

(** *** Operations and services of the examples *)

(** An operation that is overloaded, then rate limited, then answers 42;
    its state counts the calls.  From call 10 on the model is missing. *)
Definition flaky (calls : nat) : Outcome nat * nat :=
  match calls with
  | 0 => (Rejected (ErrorObject (lit "503 Service Unavailable")), 1)
  | 1 => (Rejected (ErrorObject (lit "429 Too Many Requests")), 2)
  | 2 => (Fulfilled 42, 3)
  | _ => (Rejected (ErrorObject (lit "404 model not found")), S calls)
  end%nat.


(** An operation that never answers: overloaded on the first two calls,
    rate limited from then on. *)
Definition neverAnswers (calls : nat) : Outcome nat * nat :=
  (Rejected (ErrorObject (if (calls <? 2)%nat
                          then lit "503 overloaded"
                          else lit "429 quota exceeded")),
   S calls).

Definition answer (t : jsstring) : GenerateContentResult :=
  mkGenerateContentResult
    (Some (mkGenerateContentResponse (Fulfilled t) None)).

(** A service whose state counts the requests: the first two find no
    model, the third answers, request 20 is answered with white space
    only, and any other request finds the key refused. *)
Definition thirdAnswers (model prompt : jsstring) (requests : nat)
  : Outcome (option GenerateContentResult) * nat :=
  match requests with
  | 0 | 1 =>
      (Rejected (ErrorObject (lit "[404] models/" ++ model ++ lit " is not found")),
       S requests)
  | 2 => (Fulfilled (Some (answer (lit " Once upon a time. "))), 3)
  | 20 => (Fulfilled (Some (answer (lit "  "))), 21)
  | _ => (Rejected (ErrorObject (lit "[401] API_KEY_INVALID")), S requests)
  end%nat.

(** A service on which no model exists. *)
Definition noneExists (model prompt : jsstring) (requests : nat)
  : Outcome (option GenerateContentResult) * nat :=
  (Rejected (ErrorObject (lit "[404] The model is not found for this API version.")),
   S requests).

(** A service that is always overloaded. *)
Definition alwaysOverloaded (model prompt : jsstring) (requests : nat)
  : Outcome (option GenerateContentResult) * nat :=
  (Rejected (ErrorObject (lit "[503] The model is overloaded.")), S requests).

End AiService.

(* ================================================================== *)
(** ** The streaming animator ([streamContent]) *)
(* ================================================================== *)

Module Editor.

(** The editor view as [streamContent] observes it: the plain text of
    its document ([view.state.doc.textContent]).  Inserting text at the
    end of the document appends to that text. *)
Record EditorView : Type := mkView {
  textContent : jsstring
}.

(** What the animator does to the outside, in order. *)
Inductive Effect : Type :=
| Dispatch (inserted : jsstring)   (* a transaction inserting text at the end *)
| Pause (ms : Z)                   (* a [setTimeout] pause awaited *)
| Complete.                        (* [onComplete()] called *)

Record Stage : Type := mkStage {
  current : option EditorView;     (* [viewRef.current] *)
  log : list Effect;
  awaited : nat                    (* pauses awaited so far *)
}.

(** While [/\n+/] is stripped from the front, the newlines are collected
    in [leadingNewlines]. *)
Fixpoint stripNewlines (textToStream leadingNewlines : jsstring)
  : jsstring * jsstring :=
  match textToStream with
  | c :: rest =>
      if (c =? 10)%N
      then stripNewlines rest (leadingNewlines ++ [10%N])
      else (leadingNewlines, textToStream)
  | [] => (leadingNewlines, textToStream)
  end.

(** [s[s.length - 1]], [None] for [undefined]. *)
Definition lastChar (s : jsstring) : option codeunit :=
  match rev s with
  | c :: _ => Some c
  | [] => None
  end.

(** [lastChar && !lastChar.match(/\s/)] *)
Definition endsInWord (s : jsstring) : bool :=
  match lastChar s with
  | Some c => negb (isWhiteSpace c)
  | None => false
  end.

(** [/[.,!?;:]/] *)
Definition isPunctuation (c : codeunit) : bool :=
  ((c =? 46) || (c =? 44) || (c =? 33) || (c =? 63) || (c =? 59)
   || (c =? 58))%N.

(** [/[a-zA-Z]/] *)
Definition isLetter (c : codeunit) : bool :=
  (((97 <=? c) && (c <=? 122)) || ((65 <=? c) && (c <=? 90)))%N.

(** The pause after a character. *)
Definition delay (char : codeunit) : Z :=
  if isWhiteSpace char then 15
  else if isPunctuation char then 60
  else if isLetter char then 40
  else 30.

Section Stream.

(** What the rest of the application does to [viewRef.current] while
    the animator waits in its [n]-th pause: nothing, a user edit, or
    the unmount that destroys the view and clears the reference. *)
Variable during : nat -> option EditorView -> option EditorView.

(** [await new Promise(resolve => setTimeout(resolve, ms))] *)
Definition pause (ms : Z) (st : Stage) : Stage :=
  mkStage (during (awaited st) (current st))
          (log st ++ [Pause ms])
          (S (awaited st)).

(** [tr.insertText(s, <end of document>); dispatch(tr)] on the view
    that [viewRef.current] holds. *)
Definition insertAtEnd (s : jsstring) (st : Stage) : Stage :=
  match current st with
  | Some view =>
      mkStage (Some (mkView (textContent view ++ s)))
              (log st ++ [Dispatch s])
              (awaited st)
  | None => st
  end.

(** The character loop, from index [i] on; [textToStream] holds the
    characters from [i]. *)
Fixpoint streamLoop (textToStream : jsstring) (st : Stage) : Stage :=
  match textToStream with
  | [] => st
  | char :: rest =>
      match current st with
      | None => st                                         (* break *)
      | Some _ =>
          streamLoop rest (pause (delay char) (insertAtEnd [char] st))
      end
  end.

(** [streamContent(content, onComplete)]; [onComplete] tells whether
    a callback was passed. *)
Definition streamContent (content : jsstring) (onComplete : bool)
           (st : Stage) : Stage :=
  match current st with
  | None => st                                             (* return *)
  | Some view =>
      let (leadingNewlines, textToStream) := stripNewlines content [] in
      let textToStream :=
        if negb (truthy leadingNewlines)
        then if endsInWord (textContent view)
             then lit " " ++ textToStream
             else textToStream
        else textToStream in
      let st :=
        if truthy leadingNewlines
        then pause 30 (insertAtEnd leadingNewlines st)
        else st in
      let st := streamLoop textToStream st in
      if onComplete
      then mkStage (current st) (log st ++ [Complete]) (awaited st)
      else st
  end.

End Stream.

(** [getContent()]: the plain text of the document, [''] without a
    view. *)
Definition getContent (st : Stage) : jsstring :=
  match current st with
  | None => lit ""
  | Some view => textContent view
  end.

(** [appendContent(content)] *)
Definition appendContent (content : jsstring) (st : Stage) : Stage :=
  match current st with
  | None => st
  | Some view =>
      let insertText :=
        if endsInWord (textContent view)
        then lit " " ++ content
        else content in
      insertAtEnd insertText st
  end.

(** The time a log spends in pauses, and its transactions. *)
Fixpoint elapsed (effects : list Effect) : Z :=
  match effects with
  | [] => 0
  | Pause ms :: rest => ms + elapsed rest
  | _ :: rest => elapsed rest
  end.

Fixpoint dispatched (effects : list Effect) : list jsstring :=
  match effects with
  | [] => []
  | Dispatch s :: rest => s :: dispatched rest
  | _ :: rest => dispatched rest
  end.

Definition completions (effects : list Effect) : nat :=
  length (filter (fun ef => match ef with Complete => true | _ => false end)
                 effects).

(** The space [streamContent] puts between the document and the text. *)
Definition boundary (doc content : jsstring) : jsstring :=
  if startsWith content [10%N] then []
  else if endsInWord doc then lit " " else [].

(** Nothing else touches the view while the animator waits. *)
Definition undisturbed : nat -> option EditorView -> option EditorView :=
  fun _ view => view.

(** The view is destroyed during pause number [n]. *)
Definition destroyedAt (n : nat) : nat -> option EditorView -> option EditorView :=
  fun k view => if (k =? n)%nat then None else view.

End Editor.

(* ================================================================== *)
(** ** The toolbar state reconciler ([updateToolbar]) *)
(* ================================================================== *)

Module Toolbar.

(** A mark: the name of its type and its [size] attribute, if it has
    one.  A schema has one mark type per name, so two marks have the
    same type exactly when the names agree. *)
Record Mark : Type := mkMark {
  typeName : jsstring;               (* [mark.type.name] *)
  size : option jsstring             (* [mark.attrs.size] *)
}.

(** A document node as the range callback reads it. *)
Record Node : Type := mkNode {
  marks : list Mark
}.

Fixpoint eqb (a b : jsstring) : bool :=
  match a, b with
  | [], [] => true
  | x :: a', y :: b' => (x =? y)%N && eqb a' b'
  | _, _ => false
  end.

(** [m.type === mark.type] *)
Definition sameType (m mark : Mark) : bool :=
  eqb (typeName m) (typeName mark).

(** [node.marks.some(m => m.type === mark.type)] *)
Definition nodeHasMark (node : Node) (mark : Mark) : bool :=
  existsb (fun m => sameType m mark) (marks node).

(** [mark.attrs.size || '16px'] *)
Definition sizeOr16 (mark : Mark) : jsstring :=
  match size mark with
  | Some s => if truthy s then s else lit "16px"
  | None => lit "16px"
  end.

(** [marks.add(name)] on a [Set<string>], kept in insertion order. *)
Definition add (name : jsstring) (set : list jsstring) : list jsstring :=
  if existsb (eqb name) set then set else set ++ [name].

(** [marks.has(name)] *)
Definition has (set : list jsstring) (name : jsstring) : bool :=
  existsb (eqb name) set.

Record Selection : Type := mkSelection {
  anchor : nat;
  head : nat
}.

Definition from (s : Selection) : nat := Nat.min (anchor s) (head s).
Definition to (s : Selection) : nat := Nat.max (anchor s) (head s).
Definition empty (s : Selection) : bool := (from s =? to s)%nat.

(** What [updateToolbar] hands to [setActiveMarks] and [setFontSize]. *)
Record ToolbarState : Type := mkToolbar {
  activeMarks : list jsstring;
  fontSize : jsstring
}.

Section Reconciler.

(** The document engine: the document type, the marks at a resolved
    position ([doc.resolve(pos).marks()]) and the nodes that
    [doc.nodesBetween(from, to, f)] hands to [f], in order. *)
Variable Doc : Type.
Variable resolveMarks : Doc -> nat -> list Mark.
Variable nodesBetween : Doc -> nat -> nat -> list Node.

Record EditorState : Type := mkState {
  doc : Doc;
  selection : Selection;
  storedMarks : option (list Mark)   (* [None] is [null] *)
}.

(** The variables the range branch updates. *)
Record Acc : Type := mkAcc {
  acc_marks : list jsstring;
  currentFontSize : jsstring;
  foundFontSize : bool
}.

(** The callback of [nodesBetween], for the mark at hand; the boolean
    is [markExistsEverywhere]. *)
Definition visit (mark : Mark) (st : bool * Acc) (node : Node)
  : bool * Acc :=
  let (markExistsEverywhere, acc) := st in
  let has_ := nodeHasMark node mark in
  let markExistsEverywhere :=
    if negb has_ then false else markExistsEverywhere in
  let acc :=
    if eqb (typeName mark) (lit "fontSize")
       && negb (foundFontSize acc) && has_
    then
      match find (fun m => eqb (typeName m) (lit "fontSize")) (marks node) with
      | Some fontSizeMark =>
          mkAcc (acc_marks acc) (sizeOr16 fontSizeMark) true
      | None => acc
      end
    else acc in
  (markExistsEverywhere, acc).

(** The body of [marksAtStart.forEach]. *)
Definition checkMark (state : EditorState) (acc : Acc) (mark : Mark) : Acc :=
  let visited :=
    nodesBetween (doc state) (from (selection state)) (to (selection state)) in
  let (markExistsEverywhere, acc) := fold_left (visit mark) visited (true, acc) in
  if markExistsEverywhere
  then mkAcc (add (typeName mark) (acc_marks acc))
             (currentFontSize acc) (foundFontSize acc)
  else acc.

(** The body of [storedMarks.forEach] in the collapsed branch. *)
Definition cursorMark (acc : Acc) (mark : Mark) : Acc :=
  mkAcc (add (typeName mark) (acc_marks acc))
        (if eqb (typeName mark) (lit "fontSize")
         then sizeOr16 mark else currentFontSize acc)
        (foundFontSize acc).

Definition updateToolbar (state : EditorState) : ToolbarState :=
  let start := mkAcc [] (lit "16px") false in
  let acc :=
    if empty (selection state)
    then
      let storedMarks :=
        match storedMarks state with
        | Some ms => ms
        | None => resolveMarks (doc state) (anchor (selection state))
        end in
      fold_left cursorMark storedMarks start
    else
      let marksAtStart := resolveMarks (doc state) (from (selection state)) in
      fold_left (checkMark state) marksAtStart start in
  mkToolbar (acc_marks acc) (currentFontSize acc).

End Reconciler.

(** *** The engine's range iteration on a document tree *)

(** A document tree: text nodes, and element nodes (paragraphs, lists,
    leaves such as a hard break). *)
#[warnings="-register-all"] Inductive Tree : Type :=
| TextNode (text : jsstring) (marks : list Mark)
| Element (leaf : bool) (marks : list Mark) (content : list Tree).

(** [node.nodeSize]: the length of a text node, 1 for a leaf, and the
    content plus the two boundary tokens otherwise. *)
Fixpoint nodeSize (n : Tree) : nat :=
  match n with
  | TextNode text _ => length text
  | Element leaf _ content =>
      if leaf then 1
      else 2 + (fix sizes (l : list Tree) : nat :=
                  match l with
                  | [] => 0
                  | c :: l' => nodeSize c + sizes l'
                  end) content
  end.

(** [node.content.size] *)
Definition contentSize (n : Tree) : nat :=
  match n with
  | TextNode _ _ => 0
  | Element _ _ content => fold_right (fun c acc => nodeSize c + acc) 0 content
  end.

Definition treeMarks (n : Tree) : list Mark :=
  match n with
  | TextNode _ ms => ms
  | Element _ ms _ => ms
  end.

(** The nodes [n.nodesBetween(from, to, f)] calls [f] on, with positions
    relative to the start of [n]'s content: every child that overlaps
    the range, each followed by its own overlapping descendants. *)
Fixpoint treeNodesBetween (n : Tree) (from to : nat) : list Node :=
  match n with
  | TextNode _ _ => []
  | Element _ _ content =>
      (fix children (l : list Tree) (pos : nat) : list Node :=
         match l with
         | [] => []
         | child :: l' =>
             if (pos <? to)%nat then
               let end_ := pos + nodeSize child in
               (if (from <? end_)%nat
                then mkNode (treeMarks child)
                     :: (if (0 <? contentSize child)%nat
                         then treeNodesBetween child
                                (from - (pos + 1))
                                (Nat.min (contentSize child) (to - (pos + 1)))
                         else [])
                else [])
               ++ children l' end_
             else []
         end) content 0
  end.

(** [node.marks.some(m => m.type.name === name)]: the node carries a
    mark of that name. *)
Definition carries (node : Node) (name : jsstring) : bool :=
  existsb (fun m => eqb (typeName m) name) (marks node).

(** [mark.type.name === 'fontSize'] *)
Definition isFontSize (mark : Mark) : bool :=
  eqb (typeName mark) (lit "fontSize").

(** The size the first node with a [fontSize] mark has, ['16px'] when no
    node has one. *)
Definition firstFontSize (visited : list Node) : jsstring :=
  match find (fun node => existsb isFontSize (marks node)) visited with
  | Some node =>
      match find isFontSize (marks node) with
      | Some mark => sizeOr16 mark
      | None => lit "16px"
      end
  | None => lit "16px"
  end.

(** The size of the last [fontSize] mark of a list, ['16px'] when it has
    none. *)
Definition lastFontSize (ms : list Mark) : jsstring :=
  match find isFontSize (rev ms) with
  | Some mark => sizeOr16 mark
  | None => lit "16px"
  end.

(** Marks and documents of the examples. *)
Definition strong : Mark := mkMark (lit "strong") None.

(** One paragraph, ["ab"] in bold followed by ["cd"] plain. *)
Definition halfBold : Tree :=
  Element false []
    [ Element false []
        [ TextNode (lit "ab") [strong]; TextNode (lit "cd") [] ] ].

(** The selection from position 1 to position 5 of [halfBold] covers
    both text nodes; no marks are stored. *)
Definition halfBoldSelected : EditorState Tree :=
  mkState halfBold (mkSelection 1 5) None.

End Toolbar.

(* ================================================================== *)
(** ** The application shell ([App]) *)
(* ================================================================== *)

Module App.

(** [canContinue]: what enables the button. *)
Definition canContinue (context : EditorMachine.EditorContext) : bool :=
  (0 <? length (trim (EditorMachine.content context)))%nat
  && negb (EditorMachine.isLoading context).

(** The condition under which the error panel offers the retry button. *)
Definition showRetry (error : jsstring) : bool :=
  includes error (lit "overloaded")
  || includes error (lit "503")
  || includes error (lit "quota")
  || includes error (lit "429").

Section Handler.

Variable Env : Type.
Variable generateContent :
  jsstring -> jsstring -> Env
  -> Outcome (option AiService.GenerateContentResult) * Env.
Variable undefinedMessage : jsstring.
Variable apiKey : option jsstring.
Variable during : nat -> option Editor.EditorView -> option Editor.EditorView.

(** What [handleContinueWriting] acts on: the remote service, the editor
    as it is when the response arrives, the events sent to the machine so
    far, and the [isStreaming] flag. *)
Record AppWorld : Type := mkApp {
  service : World Env;
  editor : Editor.Stage;
  sent : list EditorMachine.EditorEvent;
  isStreaming : bool
}.

(** [error instanceof Error ? error.message : 'Failed to continue writing'] *)
Definition errorText (error : Thrown) : jsstring :=
  match error with
  | ErrorObject message => message
  | OtherValue => lit "Failed to continue writing"
  end.

(** [handleContinueWriting], for the content [textContent] of the
    rendered machine state; [handle] tells whether [editorRef.current] is
    set when the response arrives.  The callback handed to
    [streamContent] clears [isStreaming]. *)
Definition handleContinueWriting (textContent : jsstring) (handle : bool)
           (a : AppWorld) : AppWorld :=
  if negb (truthy (trim textContent)) then a
  else
    let sent1 := sent a ++ [EditorMachine.CONTINUE_WRITING] in
    match AiService.continueWriting generateContent undefinedMessage apiKey
                                    (AiService.mkRequest textContent)
                                    (service a) with
    | (Fulfilled response, service') =>
        let sent2 :=
          sent1 ++ [EditorMachine.AI_RESPONSE (AiService.continuation response)] in
        let formattedContinuation :=
          [10%N; 10%N] ++ AiService.continuation response in
        if handle then
          let streamed :=
            Editor.streamContent during formattedContinuation true (editor a) in
          let called :=
            (Editor.completions (Editor.log (editor a))
             <? Editor.completions (Editor.log streamed))%nat in
          mkApp service' streamed sent2 (negb called)
        else mkApp service' (editor a) sent2 (isStreaming a)
    | (Rejected error, service') =>
        mkApp service' (editor a)
              (sent1 ++ [EditorMachine.ERROR (errorText error)]) false
    end.

End Handler.

End App.

Unset Implicit Arguments.

(* ================================================================== *)
(** ** Properties of JavaScript strings *)
(* ================================================================== *)

Module JsStringFacts.

Lemma trimStart_nil_iff (s : jsstring) :
  trimStart s = [] <-> forallb isWhiteSpace s = true.
Proof.
  induction s as [|c s IH]; simpl.
  - split; reflexivity.
  - destruct (isWhiteSpace c); simpl.
    + exact IH.
    + split; discriminate.
Qed.

(** What [trimStart] leaves is empty or starts with a character that is
    not white space. *)
Lemma trimStart_head (s : jsstring) :
  match trimStart s with
  | [] => True
  | c :: _ => isWhiteSpace c = false
  end.
Proof.
  induction s as [|c s IH]; simpl; [exact I|].
  destruct (isWhiteSpace c) eqn:E; [exact IH | exact E].
Qed.

Lemma forallb_rev {A} (p : A -> bool) (l : list A) :
  forallb p (rev l) = forallb p l.
Proof.
  induction l as [|a l IH]; simpl; [reflexivity|].
  rewrite forallb_app, IH. simpl. rewrite andb_true_r. apply andb_comm.
Qed.

(** A string trims to the empty string exactly when all its characters
    are white space. *)
Lemma trim_nil_iff (s : jsstring) :
  trim s = [] <-> forallb isWhiteSpace s = true.
Proof.
  unfold trim, trimEnd. split.
  - intros H.
    assert (H1 : trimStart (rev (trimStart s)) = []).
    { destruct (trimStart (rev (trimStart s))) as [|a l]; [reflexivity|].
      simpl in H. destruct (rev l); discriminate. }
    apply trimStart_nil_iff in H1. rewrite forallb_rev in H1.
    pose proof (trimStart_head s) as Hh.
    destruct (trimStart s) as [|c t] eqn:E.
    + apply trimStart_nil_iff; exact E.
    + simpl in H1. rewrite Hh in H1. discriminate.
  - intros H. apply trimStart_nil_iff in H. rewrite H. reflexivity.
Qed.

(** The trimmed string is truthy exactly when it has positive length. *)
Lemma truthy_length (s : jsstring) :
  truthy s = (0 <? length s)%nat.
Proof. destruct s; reflexivity. Qed.

End JsStringFacts.

(* ================================================================== *)
(** ** Properties of the editor state machine *)
(* ================================================================== *)

Module EditorMachineFacts.
Import EditorMachine JsStringFacts.

Lemma hasContent_blank (ctx : EditorContext) :
  trim (content ctx) = [] -> hasContent ctx = false.
Proof. unfold hasContent. intros ->. reflexivity. Qed.

Lemma consistent_initial : consistent initial.
Proof. split; [split|]; simpl; discriminate. Qed.

Lemma consistent_transition (s : Snapshot) (event : EditorEvent) :
  consistent s -> consistent (transition s event).
Proof.
  destruct s as [v [c l e]]. unfold consistent. simpl.
  intros [Hl He].
  destruct v, event; unfold transition, select; simpl;
    try (destruct (hasContent _)); simpl;
    repeat split; intros; try discriminate; try tauto; auto.
Qed.

Lemma consistent_fold (events : list EditorEvent) (s : Snapshot) :
  consistent s -> consistent (fold_left transition events s).
Proof.
  revert s. induction events as [|event events IH]; simpl; intros s Hs.
  - exact Hs.
  - apply IH, consistent_transition, Hs.
Qed.

(** C7.  [CONTINUE_WRITING] received in [idle] while the content is
    empty after trimming leaves the machine in [idle] with the context
    unchanged; [RESET] received in any state, with any context, yields
    [idle] with the context [{content: "", isLoading: false, error: null}]. *)
Theorem continue_blank_stays_reset_clears
        (ctx : EditorContext) (s : Snapshot)
        (Hblank : trim (content ctx) = []) :
  transition (mkSnapshot idle ctx) CONTINUE_WRITING = mkSnapshot idle ctx
  /\ transition s RESET = mkSnapshot idle (mkContext (lit "") false None).
Proof.
  split.
  - unfold transition, select. simpl.
    rewrite (hasContent_blank ctx Hblank). reflexivity.
  - destruct s as [[|] c]; reflexivity.
Qed.

Lemma continue_blank_stays_reset_clears_witness :
  let ctx := mkContext (lit "  ") false (Some (lit "quota")) in
  let s := mkSnapshot loading (mkContext (lit "draft") true None) in
  transition (mkSnapshot idle ctx) CONTINUE_WRITING = mkSnapshot idle ctx
  /\ transition s RESET = mkSnapshot idle (mkContext (lit "") false None).
Proof.
  apply continue_blank_stays_reset_clears. reflexivity.
Defined.

(** C8.  In every configuration reachable from the initial one,
    [isLoading] is true exactly when the machine is in [loading], and no
    error is stored there.  Entering [loading] sets [isLoading] and
    clears [error]; [AI_RESPONSE] and [ERROR] leave [loading] with
    [isLoading] false; after [RESET] the error is [null]. *)
Theorem loading_flag_tracks_state (events : list EditorEvent) :
  let s := run events in
  (isLoading (context s) = true <-> value s = loading)
  /\ (value s = loading -> error (context s) = None)
  /\ (forall event,
        value s = idle -> value (transition s event) = loading ->
        isLoading (context (transition s event)) = true
        /\ error (context (transition s event)) = None)
  /\ (forall c,
        value s = loading ->
        transition s (AI_RESPONSE c)
        = mkSnapshot idle (mkContext (content (context s) ++ lit " " ++ c)
                                     false None))
  /\ (forall e,
        value s = loading ->
        transition s (ERROR e)
        = mkSnapshot idle (mkContext (content (context s)) false (Some e)))
  /\ error (context (transition s RESET)) = None.
Proof.
  intros s.
  assert (Hs : consistent s) by (apply consistent_fold, consistent_initial).
  destruct Hs as [Hl He].
  split; [exact Hl|]. split; [exact He|].
  split; [|split; [|split]].
  - intros event Hidle Hload.
    destruct (consistent_transition s event (conj Hl He)) as [Hl' He'].
    split; [apply Hl', Hload | apply He', Hload].
  - intros c Hv. unfold transition, select. rewrite Hv. simpl.
    rewrite (He Hv). reflexivity.
  - intros e Hv. unfold transition, select. rewrite Hv. reflexivity.
  - destruct s as [[|] c]; reflexivity.
Qed.

Lemma loading_flag_tracks_state_witness :
  let s := run [CONTENT_UPDATED (lit "draft"); CONTINUE_WRITING] in
  value s = loading
  /\ isLoading (context s) = true
  /\ error (context s) = None.
Proof.
  pose proof (loading_flag_tracks_state
                [CONTENT_UPDATED (lit "draft"); CONTINUE_WRITING]) as H.
  cbv zeta in H. destruct H as [Hl [He _]].
  split; [reflexivity|]. split; [apply Hl | apply He]; reflexivity.
Defined.

(** C10.  In [idle] and in [loading], [CONTENT_UPDATED(text)] keeps the
    state, sets [content] to [text] and leaves [isLoading] and [error] as
    they were. *)
Theorem content_updated_frame (v : StateValue) (ctx : EditorContext)
        (text : jsstring) :
  transition (mkSnapshot v ctx) (CONTENT_UPDATED text)
  = mkSnapshot v (mkContext text (isLoading ctx) (error ctx)).
Proof. destruct v; reflexivity. Qed.

End EditorMachineFacts.

(* ================================================================== *)
(** ** Properties of the AI service *)
(* ================================================================== *)

Module AiServiceFacts.
Import AiService.

Lemma invocations_app (a b : list Event) :
  invocations (a ++ b) = (invocations a + invocations b)%nat.
Proof. unfold invocations. rewrite filter_app, length_app. reflexivity. Qed.

Section RetryFacts.

Variables (Env T : Type).
Variables (maxRetries : nat) (d : Z).

(** One iteration of the loop, by the way the call settles. *)
Lemma retryLoop_unfold (fn : Js Env T) (remaining attempt : nat)
      (last : option jsstring) (e : Env) (tr : list Event) :
  retryLoop fn maxRetries d (S remaining) attempt last (mkWorld e tr)
  = match fn (mkWorld e (tr ++ [Invoke])) with
    | (Fulfilled v, w') => (Fulfilled v, w')
    | (Rejected err, w') =>
        if negb (isRetryable (caught err))
           || (Z.of_nat attempt =? Z.of_nat maxRetries - 1)%Z
        then (Rejected (ErrorObject (caught err)), w')
        else retryLoop fn maxRetries d remaining (S attempt)
                       (Some (caught err))
                       (mkWorld (env w')
                                (trace w' ++ [Sleep (d * 2 ^ Z.of_nat attempt)]))
    end.
Proof.
  cbn [retryLoop]. unfold bind at 1. unfold try, bind at 1, emit.
  cbn [env trace].
  destruct (fn (mkWorld e (tr ++ [Invoke]))) as [[v|err] w']; [reflexivity|].
  cbn [ret throw].
  destruct (negb (isRetryable (caught err))
            || (Z.of_nat attempt =? Z.of_nat maxRetries - 1)%Z);
    reflexivity.
Qed.

Variable f : Env -> Outcome T * Env.

Lemma retryLoop_step (remaining attempt : nat) (last : option jsstring)
      (e : Env) (tr : list Event) :
  retryLoop (perform f) maxRetries d (S remaining) attempt last (mkWorld e tr)
  = match f e with
    | (Fulfilled v, e') => (Fulfilled v, mkWorld e' (tr ++ [Invoke]))
    | (Rejected err, e') =>
        if negb (isRetryable (caught err))
           || (Z.of_nat attempt =? Z.of_nat maxRetries - 1)%Z
        then (Rejected (ErrorObject (caught err)), mkWorld e' (tr ++ [Invoke]))
        else retryLoop (perform f) maxRetries d remaining (S attempt)
                       (Some (caught err))
                       (mkWorld e' ((tr ++ [Invoke])
                                    ++ [Sleep (d * 2 ^ Z.of_nat attempt)]))
    end.
Proof.
  rewrite retryLoop_unfold. unfold perform. cbn [env trace].
  destruct (f e) as [[v|err] e']; reflexivity.
Qed.


(** What the loop returns is what some call of [fn] returned. *)
Lemma retryLoop_fulfilled (fn : Js Env T) (remaining attempt : nat)
      (last : option jsstring) (w w' : World Env) (v : T) :
  retryLoop fn maxRetries d remaining attempt last w = (Fulfilled v, w') ->
  exists w1, fn w1 = (Fulfilled v, w').
Proof.
  revert attempt last w.
  induction remaining as [|remaining IH]; intros attempt last [e tr] H.
  - discriminate H.
  - rewrite retryLoop_unfold in H.
    destruct (fn (mkWorld e (tr ++ [Invoke]))) as [[v1|err] w1] eqn:E.
    + inversion H; subst. exists (mkWorld e (tr ++ [Invoke])). exact E.
    + destruct (negb (isRetryable (caught err))
                || (Z.of_nat attempt =? Z.of_nat maxRetries - 1)%Z).
      * discriminate H.
      * eapply IH. exact H.
Qed.

End RetryFacts.




Section ClientFacts.

Variable Env : Type.
Variable generateContent :
  jsstring -> jsstring -> Env -> Outcome (option GenerateContentResult) * Env.
Variable undefinedMessage : jsstring.

(** One iteration of the fallback loop, by the way the request settles. *)
Lemma modelLoop_step (prompt m : jsstring) (rest : list jsstring)
      (result : option GenerateContentResult) (last : option jsstring)
      (e : Env) (tr : list Event) :
  modelLoop generateContent prompt (m :: rest) result last (mkWorld e tr)
  = match generateContent m prompt e with
    | (Fulfilled r, e') =>
        if hasResponse r
        then (Fulfilled (r, last), mkWorld e' (tr ++ [Generate m prompt]))
        else modelLoop generateContent prompt rest r last (mkWorld e' (tr ++ [Generate m prompt]))
    | (Rejected err, e') =>
        let message := modelMessage err in
        if notFound message
        then modelLoop generateContent prompt rest result (Some message)
                  (mkWorld e' (tr ++ [Generate m prompt]))
        else (Rejected (ErrorObject message),
              mkWorld e' (tr ++ [Generate m prompt]))
    end.
Proof.
  cbn [modelLoop]. unfold bind at 1. unfold try, callModel, bind at 1.
  unfold emit, perform. cbn [env trace].
  destruct (generateContent m prompt e) as [[r|err] e'].
  - destruct (hasResponse r); reflexivity.
  - cbn zeta.
    destruct (notFound (modelMessage err));
      reflexivity.
Qed.

(** A result the loop leaves with a response is handed to the
    extraction. *)
Lemma generate_of_loop (prompt : jsstring) (w w' : World Env)
      (r : GenerateContentResult) (resp : GenerateContentResponse)
      (last : option jsstring) :
  modelLoop generateContent prompt modelsToTry None None w = (Fulfilled (Some r, last), w') ->
  response r = Some resp ->
  generate generateContent undefinedMessage prompt w
  = (extractContinuation resp, w').
Proof.
  intros Hloop Hresp. unfold generate, bind. rewrite Hloop, Hresp.
  reflexivity.
Qed.

End ClientFacts.

(** C2.  In the fallback loop of [continueWriting], at any model [m] of
    the list, each case under its own assumptions: a request that fails
    with a not-found signature makes the loop go on with the next model;
    a request that fails with any other signature ends the loop at once
    and the error propagates; a request that yields a response is
    accepted and no later model is tried.  On the list of the source:
    when the first two models fail with a not-found signature and the
    third yields a response, exactly these three requests are sent and
    the outcome is the extraction of the third model's response. *)
Theorem model_fallback_order :
  (forall (Env : Type)
          (generateContent :
             jsstring -> jsstring -> Env
             -> Outcome (option GenerateContentResult) * Env)
          (prompt m : jsstring) (rest : list jsstring)
          (result : option GenerateContentResult) (last : option jsstring)
          (tr : list Event) (e e' : Env) (err : Thrown),
      generateContent m prompt e = (Rejected err, e') ->
      notFound (modelMessage err) = true ->
      modelLoop generateContent prompt (m :: rest) result last (mkWorld e tr)
      = modelLoop generateContent prompt rest result (Some (modelMessage err))
                  (mkWorld e' (tr ++ [Generate m prompt])))
  /\ (forall (Env : Type)
             (generateContent :
                jsstring -> jsstring -> Env
                -> Outcome (option GenerateContentResult) * Env)
             (prompt m : jsstring) (rest : list jsstring)
             (result : option GenerateContentResult) (last : option jsstring)
             (tr : list Event) (x x' : Env) (errx : Thrown),
        generateContent m prompt x = (Rejected errx, x') ->
        notFound (modelMessage errx) = false ->
        modelLoop generateContent prompt (m :: rest) result last (mkWorld x tr)
        = (Rejected (ErrorObject (modelMessage errx)),
           mkWorld x' (tr ++ [Generate m prompt])))
  /\ (forall (Env : Type)
             (generateContent :
                jsstring -> jsstring -> Env
                -> Outcome (option GenerateContentResult) * Env)
             (prompt m : jsstring) (rest : list jsstring)
             (result : option GenerateContentResult) (last : option jsstring)
             (tr : list Event) (y y' : Env)
             (r : GenerateContentResult) (resp : GenerateContentResponse),
        generateContent m prompt y = (Fulfilled (Some r), y') ->
        response r = Some resp ->
        modelLoop generateContent prompt (m :: rest) result last (mkWorld y tr)
        = (Fulfilled (Some r, last), mkWorld y' (tr ++ [Generate m prompt])))
  /\ (forall (Env : Type)
             (generateContent :
                jsstring -> jsstring -> Env
                -> Outcome (option GenerateContentResult) * Env)
             (undefinedMessage prompt : jsstring) (tr : list Event)
             (z0 z1 z2 z3 : Env) (err1 err2 : Thrown)
             (r3 : GenerateContentResult) (resp3 : GenerateContentResponse),
        generateContent (lit "gemini-2.5-flash") prompt z0
        = (Rejected err1, z1) ->
        notFound (modelMessage err1) = true ->
        generateContent (lit "gemini-2.5-pro") prompt z1
        = (Rejected err2, z2) ->
        notFound (modelMessage err2) = true ->
        generateContent (lit "gemini-1.5-flash") prompt z2
        = (Fulfilled (Some r3), z3) ->
        response r3 = Some resp3 ->
        generate generateContent undefinedMessage prompt (mkWorld z0 tr)
        = (extractContinuation resp3,
           mkWorld z3 (tr ++ [Generate (lit "gemini-2.5-flash") prompt;
                              Generate (lit "gemini-2.5-pro") prompt;
                              Generate (lit "gemini-1.5-flash") prompt]))).
Proof.
  split; [|split; [|split]].
  - intros Env generateContent prompt m rest result last tr e e' err He Se.
    rewrite modelLoop_step, He. cbn zeta. rewrite Se. reflexivity.
  - intros Env generateContent prompt m rest result last tr x x' errx Hx Sx.
    rewrite modelLoop_step, Hx. cbn zeta. rewrite Sx. reflexivity.
  - intros Env generateContent prompt m rest result last tr y y' r resp Hy Ry.
    rewrite modelLoop_step, Hy. unfold hasResponse. rewrite Ry. reflexivity.
  - intros Env generateContent undefinedMessage prompt tr z0 z1 z2 z3
           err1 err2 r3 resp3 H1 S1 H2 S2 H3 R3.
    apply generate_of_loop with (r := r3)
                                (last := Some (modelMessage err2));
      [|exact R3].
    unfold modelsToTry.
    rewrite modelLoop_step, H1. cbn zeta. rewrite S1.
    rewrite modelLoop_step, H2. cbn zeta. rewrite S2.
    rewrite modelLoop_step, H3. unfold hasResponse. rewrite R3.
    rewrite <- !app_assoc. reflexivity.
Qed.

Lemma model_fallback_order_witness :
  modelLoop thirdAnswers (lit "p") [lit "gemini-2.5-pro"; lit "gemini-1.5-flash"]
            None None (mkWorld 1%nat [])
  = modelLoop thirdAnswers (lit "p") [lit "gemini-1.5-flash"] None
              (Some (lit "[404] models/gemini-2.5-pro is not found"))
              (mkWorld 2%nat [Generate (lit "gemini-2.5-pro") (lit "p")])
  /\ modelLoop thirdAnswers (lit "p")
               [lit "gemini-2.5-flash"; lit "gemini-2.5-pro"] None None
               (mkWorld 10%nat [])
     = (Rejected (ErrorObject (lit "[401] API_KEY_INVALID")),
        mkWorld 11%nat [Generate (lit "gemini-2.5-flash") (lit "p")])
  /\ modelLoop thirdAnswers (lit "p")
               [lit "gemini-2.5-flash"; lit "gemini-2.5-pro"] None None
               (mkWorld 2%nat [])
     = (Fulfilled (Some (answer (lit " Once upon a time. ")), None),
        mkWorld 3%nat [Generate (lit "gemini-2.5-flash") (lit "p")])
  /\ generate thirdAnswers (lit "") (lit "p") (mkWorld 0%nat [])
     = (Fulfilled (mkResponse (lit "Once upon a time.")),
        mkWorld 3%nat [Generate (lit "gemini-2.5-flash") (lit "p");
                       Generate (lit "gemini-2.5-pro") (lit "p");
                       Generate (lit "gemini-1.5-flash") (lit "p")]).
Proof.
  split; [|split; [|split]].
  - exact (proj1 model_fallback_order nat thirdAnswers (lit "p")
             (lit "gemini-2.5-pro") [lit "gemini-1.5-flash"] None None []
             1%nat 2%nat
             (ErrorObject (lit "[404] models/gemini-2.5-pro is not found"))
             eq_refl eq_refl).
  - exact (proj1 (proj2 model_fallback_order) nat thirdAnswers (lit "p")
             (lit "gemini-2.5-flash") [lit "gemini-2.5-pro"] None None []
             10%nat 11%nat (ErrorObject (lit "[401] API_KEY_INVALID"))
             eq_refl eq_refl).
  - exact (proj1 (proj2 (proj2 model_fallback_order)) nat thirdAnswers (lit "p")
             (lit "gemini-2.5-flash") [lit "gemini-2.5-pro"] None None []
             2%nat 3%nat (answer (lit " Once upon a time. "))
             (mkGenerateContentResponse (Fulfilled (lit " Once upon a time. ")) None)
             eq_refl eq_refl).
  - exact (proj2 (proj2 (proj2 model_fallback_order)) nat thirdAnswers
             (lit "") (lit "p") []
             0%nat 1%nat 2%nat 3%nat
             (ErrorObject (lit "[404] models/gemini-2.5-flash is not found"))
             (ErrorObject (lit "[404] models/gemini-2.5-pro is not found"))
             (answer (lit " Once upon a time. "))
             (mkGenerateContentResponse (Fulfilled (lit " Once upon a time. ")) None)
             eq_refl eq_refl eq_refl eq_refl eq_refl eq_refl).
Defined.

(** *** Validation *)

(** C3, as the code has it.  For every request whose text is empty after
    trimming, [continueWriting] fails before any network call, retry or
    wait: the world is left as it was.  The error is ["No text provided."]
    when a credential is configured, and the configuration error when it
    is not, because the credential is checked first. *)
Theorem blank_request_fails_before_network
        (Env : Type)
        (generateContent :
           jsstring -> jsstring -> Env
           -> Outcome (option GenerateContentResult) * Env)
        (undefinedMessage : jsstring) (apiKey : option jsstring)
        (request : AIContinuationRequest) (w : World Env)
        (Hblank : trim (text request) = []) :
  continueWriting generateContent undefinedMessage apiKey request w
  = (Rejected (ErrorObject (if missing apiKey
                            then notConfigured
                            else lit "No text provided.")), w).
Proof.
  unfold continueWriting. rewrite Hblank.
  destruct (missing apiKey); reflexivity.
Qed.

Lemma blank_request_fails_before_network_witness :
  continueWriting thirdAnswers (lit "") (Some (lit "key"))
                  (mkRequest (lit "  ")) (mkWorld 0%nat [])
  = (Rejected (ErrorObject (lit "No text provided.")), mkWorld 0%nat []).
Proof.
  exact (blank_request_fails_before_network nat thirdAnswers (lit "")
           (Some (lit "key")) (mkRequest (lit "  ")) (mkWorld 0%nat [])
           eq_refl).
Defined.

(** C3 as stated fails when no credential is configured: the request
    with text ["  "] is then rejected with the configuration error, not
    with ["No text provided."]. *)
Lemma blank_request_without_key_counterexample :
  trim (text (mkRequest (lit "  "))) = []
  /\ fst (continueWriting thirdAnswers (lit "") None
                          (mkRequest (lit "  ")) (mkWorld 0%nat []))
     = Rejected (ErrorObject notConfigured)
  /\ fst (continueWriting thirdAnswers (lit "") None
                          (mkRequest (lit "  ")) (mkWorld 0%nat []))
     <> Rejected (ErrorObject (lit "No text provided.")).
Proof.
  split; [reflexivity|]. split; [reflexivity|].
  vm_compute. discriminate.
Qed.

(** *** Extraction *)

Lemma blank_of_trim (t : jsstring) : trim t = [] -> blank t = true.
Proof. intros H. unfold blank. rewrite H. apply orb_true_r. Qed.

Lemma blank_false_nonempty (t : jsstring) : blank t = false -> trim t <> [].
Proof.
  unfold blank. intros H. apply orb_false_elim in H. destruct H as [_ H].
  destruct (trim t); [discriminate H | discriminate].
Qed.

Lemma extraction_blank (resp : GenerateContentResponse) :
  yieldsNothing (directText resp) ->
  yieldsNothing (candidateText resp) ->
  blank (secondaryText resp (primaryText resp)) = true.
Proof.
  destruct resp as [rt cands].
  unfold directText, candidateText, primaryText, secondaryText, joinParts.
  cbn [response_text candidates].
  destruct rt as [t|err]; intros Hd Hc.
  - cbn [yieldsNothing] in Hd. rewrite (blank_of_trim t Hd).
    destruct cands as [[|[[[[ps|]]|]] cs]|];
      cbn [content parts yieldsNothing] in *;
      try (apply blank_of_trim; exact Hd).
    rewrite Hc. reflexivity.
  - destruct cands as [[|[[[[ps|]]|]] cs]|];
      cbn [content parts yieldsNothing] in *;
      try reflexivity.
    destruct ps as [|p ps]; [reflexivity|].
    rewrite !Hc. reflexivity.
Qed.

Lemma extractContinuation_blank (resp : GenerateContentResponse) :
  yieldsNothing (directText resp) ->
  yieldsNothing (candidateText resp) ->
  extractContinuation resp = Rejected (ErrorObject emptyResponse).
Proof.
  intros Hd Hc. unfold extractContinuation.
  rewrite (extraction_blank resp Hd Hc). reflexivity.
Qed.

Lemma extractContinuation_fulfilled (resp : GenerateContentResponse)
      (out : AIContinuationResponse) :
  extractContinuation resp = Fulfilled out -> continuation out <> [].
Proof.
  unfold extractContinuation.
  destruct (blank (secondaryText resp (primaryText resp))) eqn:E;
    [discriminate|].
  intros H. inversion H; subst. cbn [continuation].
  apply blank_false_nonempty, E.
Qed.

Section ReturnFacts.

Variable Env : Type.
Variable generateContent :
  jsstring -> jsstring -> Env -> Outcome (option GenerateContentResult) * Env.
Variable undefinedMessage : jsstring.

Lemma generate_fulfilled (p : jsstring) (w w' : World Env)
      (out : AIContinuationResponse) :
  generate generateContent undefinedMessage p w = (Fulfilled out, w') ->
  continuation out <> [].
Proof.
  unfold generate, bind.
  destruct (modelLoop generateContent p modelsToTry None None w)
    as [[[result last]|err] w1]; [|discriminate].
  destruct result as [r|]; [|discriminate].
  destruct (response r) as [resp|]; [|discriminate].
  unfold settle. intros H. inversion H as [[Hout Hw]].
  eapply extractContinuation_fulfilled, Hout.
Qed.

Lemma attemptGeneration_fulfilled (p : jsstring) (w w' : World Env)
      (out : AIContinuationResponse) :
  attemptGeneration generateContent undefinedMessage p w = (Fulfilled out, w') ->
  continuation out <> [].
Proof.
  unfold attemptGeneration, bind, try.
  destruct (generate generateContent undefinedMessage p w)
    as [[v|err] w1] eqn:E; [|discriminate].
  unfold ret. intros H. inversion H; subst.
  eapply generate_fulfilled, E.
Qed.

End ReturnFacts.

(** An attempt whose fallback loop ends with a response that yields
    nothing fails with the wrapped empty-response error, and the retry
    loop lets that error through at whatever iteration it happens. *)
Lemma blank_attempt_not_retried
      (Env : Type)
      (generateContent :
         jsstring -> jsstring -> Env
         -> Outcome (option GenerateContentResult) * Env)
      (undefinedMessage p : jsstring)
      (e : Env) (tr : list Event) (w' : World Env)
      (r : GenerateContentResult) (resp : GenerateContentResponse)
      (last : option jsstring)
      (remaining attempt : nat) (lastError : option jsstring) :
  modelLoop generateContent p modelsToTry None None (mkWorld e (tr ++ [Invoke]))
  = (Fulfilled (Some r, last), w') ->
  response r = Some resp ->
  yieldsNothing (directText resp) ->
  yieldsNothing (candidateText resp) ->
  retryLoop (attemptGeneration generateContent undefinedMessage p) 3 1000
            (S remaining) attempt lastError (mkWorld e tr)
  = (Rejected (ErrorObject (lit "Failed to generate paragraph: " ++ emptyResponse)),
     w').
Proof.
  intros Hloop Hresp Hdirect Hparts.
  rewrite retryLoop_unfold.
  unfold attemptGeneration at 1, bind, try.
  rewrite (generate_of_loop Env generateContent undefinedMessage
             p _ w' r resp last Hloop Hresp).
  rewrite (extractContinuation_blank resp Hdirect Hparts).
  reflexivity.
Qed.

(** C6.  Two statements, each under its own assumptions.  When the
    fallback loop ends with a response and every extraction path (the
    direct text accessor, the concatenated parts of the first candidate,
    and the same extraction repeated on [result.response]) yields only
    empty or white-space text, [continueWriting] fails with the
    empty-response error, which the outer handler wraps as a generation
    failure, and the attempt is not retried.  And whenever
    [continueWriting] returns, for any service, credential, request and
    world, the [continuation] it returns is non-empty. *)
Theorem blank_extraction_fails_and_results_nonempty :
  (forall (Env : Type)
          (generateContent :
             jsstring -> jsstring -> Env
             -> Outcome (option GenerateContentResult) * Env)
          (undefinedMessage : jsstring) (apiKey : option jsstring)
          (request : AIContinuationRequest)
          (e : Env) (tr : list Event) (w' : World Env)
          (r : GenerateContentResult) (resp : GenerateContentResponse)
          (last : option jsstring),
      missing apiKey = false ->
      trim (text request) <> [] ->
      modelLoop generateContent (prompt (trim (text request)))
                modelsToTry None None (mkWorld e (tr ++ [Invoke]))
      = (Fulfilled (Some r, last), w') ->
      response r = Some resp ->
      yieldsNothing (directText resp) ->
      yieldsNothing (candidateText resp) ->
      continueWriting generateContent undefinedMessage apiKey request
                      (mkWorld e tr)
      = (Rejected (ErrorObject (lit "Failed to generate paragraph: "
                                ++ emptyResponse)), w')
      /\ (forall (remaining attempt : nat) (lastError : option jsstring),
            retryLoop (attemptGeneration generateContent undefinedMessage
                                         (prompt (trim (text request))))
                      3 1000 (S remaining) attempt lastError (mkWorld e tr)
            = (Rejected (ErrorObject (lit "Failed to generate paragraph: "
                                      ++ emptyResponse)), w')))
  /\ (forall (Env : Type)
             (generateContent :
                jsstring -> jsstring -> Env
                -> Outcome (option GenerateContentResult) * Env)
             (undefinedMessage : jsstring) (apiKey : option jsstring)
             (request : AIContinuationRequest) (w w1 : World Env)
             (out : AIContinuationResponse),
        continueWriting generateContent undefinedMessage apiKey request w
        = (Fulfilled out, w1) ->
        continuation out <> []).
Proof.
  split.
  - intros Env generateContent undefinedMessage apiKey request e tr w' r resp
           last Hkey Htext Hloop Hresp Hdirect Hparts.
    assert (Hretry :
      forall (remaining attempt : nat) (lastError : option jsstring),
        retryLoop (attemptGeneration generateContent undefinedMessage
                                     (prompt (trim (text request))))
                  3 1000 (S remaining) attempt lastError (mkWorld e tr)
        = (Rejected (ErrorObject (lit "Failed to generate paragraph: "
                                  ++ emptyResponse)), w')).
    { intros remaining attempt lastError.
      exact (blank_attempt_not_retried Env generateContent undefinedMessage
               _ e tr w' r resp last remaining attempt lastError
               Hloop Hresp Hdirect Hparts). }
    split; [|exact Hretry].
    unfold continueWriting. rewrite Hkey.
    destruct (truthy (trim (text request))) eqn:Et.
    + cbn [negb]. unfold retryWithBackoff. apply Hretry.
    + destruct (trim (text request)); [contradiction | discriminate Et].
  - intros Env generateContent undefinedMessage apiKey request w w1 out Hok.
    unfold continueWriting in Hok.
    destruct (missing apiKey); [discriminate Hok|].
    destruct (negb (truthy (trim (text request)))); [discriminate Hok|].
    unfold retryWithBackoff in Hok.
    apply retryLoop_fulfilled in Hok. destruct Hok as [wa Ha].
    eapply attemptGeneration_fulfilled, Ha.
Qed.

Lemma blank_extraction_fails_and_results_nonempty_witness :
  continueWriting thirdAnswers (lit "") (Some (lit "key"))
                  (mkRequest (lit "Dragons")) (mkWorld 20%nat [])
  = (Rejected (ErrorObject (lit "Failed to generate paragraph: " ++ emptyResponse)),
     mkWorld 21%nat
       [Invoke; Generate (lit "gemini-2.5-flash") (prompt (lit "Dragons"))])
  /\ continuation (mkResponse (lit "Once upon a time.")) <> [].
Proof.
  split.
  - exact (proj1 (proj1 blank_extraction_fails_and_results_nonempty
             nat thirdAnswers (lit "")
             (Some (lit "key")) (mkRequest (lit "Dragons"))
             20%nat []
             (mkWorld 21%nat
                [Invoke; Generate (lit "gemini-2.5-flash") (prompt (lit "Dragons"))])
             (answer (lit "  "))
             (mkGenerateContentResponse (Fulfilled (lit "  ")) None) None
             eq_refl ltac:(discriminate) eq_refl eq_refl eq_refl I)).
  - exact (proj2 blank_extraction_fails_and_results_nonempty
             nat thirdAnswers (lit "")
             (Some (lit "key")) (mkRequest (lit "Dragons")) (mkWorld 0%nat [])
             (mkWorld 3%nat
                [Invoke;
                 Generate (lit "gemini-2.5-flash") (prompt (lit "Dragons"));
                 Generate (lit "gemini-2.5-pro") (prompt (lit "Dragons"));
                 Generate (lit "gemini-1.5-flash") (prompt (lit "Dragons"))])
             (mkResponse (lit "Once upon a time."))
             eq_refl).
Defined.

End AiServiceFacts.

(* ================================================================== *)
(** ** Properties of the streaming animator *)
(* ================================================================== *)

Module EditorFacts.
Import Editor.

(** [stripNewlines] splits the text into its leading newlines and the
    rest; the newlines are non-empty exactly when the text starts with
    one. *)
Lemma stripNewlines_spec (s acc : jsstring) :
  exists nl,
    stripNewlines s acc = (acc ++ nl, skipn (length nl) s)
    /\ firstn (length nl) s = nl
    /\ truthy nl = startsWith s [10%N].
Proof.
  revert acc. induction s as [|c s IH]; intros acc.
  - exists []. cbn. rewrite app_nil_r. auto.
  - cbn [stripNewlines startsWith]. rewrite (N.eqb_sym 10 c).
    destruct (c =? 10)%N eqn:E.
    + apply N.eqb_eq in E. subst c.
      destruct (IH (acc ++ [10%N])) as [nl [H1 [H2 H3]]].
      exists (10%N :: nl). rewrite H1. rewrite <- app_assoc.
      cbn [app length firstn skipn truthy]. rewrite H2.
      repeat split. destruct s; reflexivity.
    + exists []. cbn [app length firstn skipn truthy andb].
      rewrite app_nil_r. auto.
Qed.

(** Left alone, the character loop appends the whole text. *)
Lemma streamLoop_undisturbed (text doc : jsstring) (lg : list Effect)
      (n : nat) :
  current (streamLoop undisturbed text (mkStage (Some (mkView doc)) lg n))
  = Some (mkView (doc ++ text)).
Proof.
  revert doc lg n. induction text as [|c text IH]; intros doc lg n.
  - cbn. rewrite app_nil_r. reflexivity.
  - cbn [streamLoop current]. unfold insertAtEnd, pause, undisturbed.
    cbn [current textContent log awaited]. rewrite IH.
    rewrite <- app_assoc. reflexivity.
Qed.

Lemma streamContent_undisturbed (doc content : jsstring) (onComplete : bool)
      (lg : list Effect) (n : nat) :
  current (streamContent undisturbed content onComplete
                         (mkStage (Some (mkView doc)) lg n))
  = Some (mkView (doc ++ boundary doc content ++ content)).
Proof.
  unfold streamContent, boundary. cbn [current textContent].
  destruct (stripNewlines_spec content []) as [nl [H1 [H2 H3]]].
  rewrite H1. cbn [app]. rewrite <- H3.
  assert (Hsplit : content = nl ++ skipn (length nl) content).
  { rewrite <- H2 at 1. apply eq_sym, firstn_skipn. }
  set (rest := skipn (length nl) content) in *.
  assert (Hfinal :
    forall st, current (if onComplete
                        then mkStage (current st) (log st ++ [Complete]) (awaited st)
                        else st) = current st).
  { intros st. destruct onComplete; reflexivity. }
  rewrite Hfinal.
  destruct nl as [|c nl]; cbn [truthy negb].
  - cbn [app] in Hsplit. rewrite <- Hsplit.
    destruct (endsInWord doc); rewrite streamLoop_undisturbed; reflexivity.
  - unfold insertAtEnd, pause, undisturbed.
    cbn [current textContent log awaited].
    rewrite streamLoop_undisturbed. rewrite <- app_assoc, <- Hsplit.
    reflexivity.
Qed.

(** C5, as the code has it.  Left alone, [streamContent] ends with the
    document followed by the text, with one space put between them
    whenever the text has no leading newline and the document ends in a
    character that is not white space, whether or not the text itself
    starts with a space.  So ["Hello"] on the empty document gives
    ["Hello"] with no space before it, and [" world"] after ["Hi"] gives
    ["Hi  world"], with two spaces. *)
Theorem stream_boundary_space :
  (forall (doc content : jsstring) (onComplete : bool) (lg : list Effect)
          (n : nat),
      current (streamContent undisturbed content onComplete
                             (mkStage (Some (mkView doc)) lg n))
      = Some (mkView (doc ++ boundary doc content ++ content)))
  /\ current (streamContent undisturbed (lit "Hello") true
                            (mkStage (Some (mkView (lit ""))) [] 0))
     = Some (mkView (lit "Hello"))
  /\ current (streamContent undisturbed (lit " world") true
                            (mkStage (Some (mkView (lit "Hi"))) [] 0))
     = Some (mkView (lit "Hi  world")).
Proof.
  split; [exact streamContent_undisturbed|].
  split; reflexivity.
Qed.

(** C5 as stated fails on its second example: after ["Hi"], streaming
    [" world"] leaves ["Hi  world"], which does not end in ["Hi world"]. *)
Lemma stream_space_not_collapsed_counterexample :
  exists view,
    current (streamContent undisturbed (lit " world") true
                           (mkStage (Some (mkView (lit "Hi"))) [] 0))
    = Some view
    /\ textContent view = lit "Hi  world"
    /\ endsWith (textContent view) (lit "Hi world") = false.
Proof.
  exists (mkView (lit "Hi  world")). repeat split.
Qed.

(** Once the view is gone the character loop does nothing more. *)
Lemma streamLoop_destroyed
      (during : nat -> option EditorView -> option EditorView)
      (text : jsstring) (lg : list Effect) (n : nat) :
  streamLoop during text (mkStage None lg n) = mkStage None lg n.
Proof. destruct text; reflexivity. Qed.

(** Once a view is there when [streamContent] is called with a callback,
    the callback is the last thing that happens, whatever becomes of the
    view during the pauses. *)
Lemma streamContent_always_completes
      (during : nat -> option EditorView -> option EditorView)
      (content : jsstring) (view : EditorView) (lg : list Effect) (n : nat) :
  exists lg',
    log (streamContent during content true (mkStage (Some view) lg n))
    = lg' ++ [Complete].
Proof.
  unfold streamContent. cbn [current].
  destruct (stripNewlines content []) as [nl rest].
  cbn [log]. eexists. reflexivity.
Qed.

(** C4, as the code has it.  Once the view is destroyed the character
    loop inserts nothing more and waits no more; but when the view was
    there at the call and a callback was passed, the callback is still
    invoked at the end, whatever happens to the view during the pauses.
    The callback is skipped only when no view is there at the call.  So
    for ["ab"] streamed into an empty document whose view is destroyed
    during the pause after the first character, ["b"] is never inserted
    and the callback is invoked. *)
Theorem stream_destroyed_stops_then_completes :
  (forall (during : nat -> option EditorView -> option EditorView)
          (text : jsstring) (lg : list Effect) (n : nat),
      streamLoop during text (mkStage None lg n) = mkStage None lg n)
  /\ (forall (during : nat -> option EditorView -> option EditorView)
             (content : jsstring) (view : EditorView) (lg : list Effect)
             (n : nat),
        exists lg',
          log (streamContent during content true (mkStage (Some view) lg n))
          = lg' ++ [Complete])
  /\ (forall (during : nat -> option EditorView -> option EditorView)
             (content : jsstring) (onComplete : bool) (lg : list Effect)
             (n : nat),
        streamContent during content onComplete (mkStage None lg n)
        = mkStage None lg n)
  /\ streamContent (destroyedAt 0) (lit "ab") true
                   (mkStage (Some (mkView (lit ""))) [] 0)
     = mkStage None [Dispatch (lit "a"); Pause 40; Complete] 1.
Proof.
  split; [exact streamLoop_destroyed|].
  split; [exact streamContent_always_completes|].
  split; [|reflexivity].
  intros during content onComplete lg n. reflexivity.
Qed.

(** C4 as stated fails: ["ab"] is streamed with a callback into an empty
    document and the view is destroyed during the pause after ["a"]; the
    streaming stops, and the callback is invoked all the same. *)
Lemma stream_destroyed_midway_counterexample :
  let final := streamContent (destroyedAt 0) (lit "ab") true
                             (mkStage (Some (mkView (lit ""))) [] 0) in
  current final = None
  /\ log final = [Dispatch (lit "a"); Pause 40; Complete]
  /\ In Complete (log final).
Proof.
  cbv zeta. split; [reflexivity|]. split; [reflexivity|].
  right. right. left. reflexivity.
Qed.

End EditorFacts.

(* ================================================================== *)
(** ** Properties of the toolbar reconciler *)
(* ================================================================== *)

Module ToolbarFacts.
Import Toolbar.

Lemma eqb_eq (a b : jsstring) : eqb a b = true <-> a = b.
Proof.
  revert b. induction a as [|x a IH]; intros [|y b]; simpl;
    try (split; [discriminate | discriminate]); [tauto|].
  rewrite andb_true_iff, N.eqb_eq, IH.
  split; [intros [-> ->]; reflexivity | intros H; inversion H; auto].
Qed.

Lemma has_add (n name : jsstring) (set : list jsstring) :
  has (add n set) name = true -> has set name = true \/ n = name.
Proof.
  unfold add, has. destruct (existsb (eqb n) set); [auto|].
  rewrite existsb_app. simpl. rewrite orb_false_r.
  intros H. apply orb_true_iff in H. destruct H as [H|H]; [auto|].
  right. apply eqb_eq in H. auto.
Qed.

Section ReconcilerFacts.

Variable Doc : Type.
Variable resolveMarks : Doc -> nat -> list Mark.
Variable nodesBetween : Doc -> nat -> nat -> list Node.

(** The range callback keeps [markExistsEverywhere] up only while every
    node has the mark, and never touches the set of active marks. *)
Lemma visit_fold (mark : Mark) (visited : list Node) (b : bool)
      (acc : Acc) :
  fst (fold_left (visit mark) visited (b, acc))
  = b && forallb (fun node => nodeHasMark node mark) visited
  /\ acc_marks (snd (fold_left (visit mark) visited (b, acc)))
     = acc_marks acc.
Proof.
  revert b acc. induction visited as [|node visited IH]; intros b acc.
  - simpl. rewrite andb_true_r. auto.
  - cbn [fold_left forallb].
    destruct (visit mark (b, acc) node) as [b' acc'] eqn:E.
    destruct (IH b' acc') as [H1 H2]. rewrite H1, H2.
    unfold visit in E.
    destruct (nodeHasMark node mark) eqn:Hn; cbn [negb] in E.
    + destruct (eqb (typeName mark) (lit "fontSize")
                && negb (foundFontSize acc) && true);
        [destruct (find _ (marks node))|];
        inversion E; subst; auto.
    + rewrite andb_false_r in E. inversion E; subst.
      rewrite andb_false_r. auto.
Qed.

Lemma checkMark_marks (state : EditorState Doc) (acc : Acc) (mark : Mark) :
  acc_marks (checkMark nodesBetween state acc mark)
  = if forallb (fun node => nodeHasMark node mark)
               (nodesBetween (doc state) (from (selection state))
                             (to (selection state)))
    then add (typeName mark) (acc_marks acc)
    else acc_marks acc.
Proof.
  unfold checkMark.
  destruct (visit_fold mark
              (nodesBetween (doc state) (from (selection state))
                            (to (selection state))) true acc) as [H1 H2].
  destruct (fold_left (visit mark) _ (true, acc)) as [b acc'].
  cbn [fst snd andb] in H1, H2. rewrite <- H1.
  destruct b; cbn [acc_marks]; rewrite ?H2; reflexivity.
Qed.

(** A name gets into the active set of a range only through a mark that
    every visited node has. *)
Lemma checkMark_fold_has (state : EditorState Doc) (name : jsstring)
      (marksAtStart : list Mark) (acc : Acc) :
  has (acc_marks (fold_left (checkMark nodesBetween state) marksAtStart acc))
      name = true ->
  has (acc_marks acc) name = true
  \/ exists mark,
       typeName mark = name
       /\ forallb (fun node => nodeHasMark node mark)
                  (nodesBetween (doc state) (from (selection state))
                                (to (selection state))) = true.
Proof.
  revert acc. induction marksAtStart as [|mark rest IH]; intros acc H.
  - left. exact H.
  - cbn [fold_left] in H. apply IH in H. destruct H as [H|H]; [|auto].
    rewrite checkMark_marks in H.
    destruct (forallb _ _) eqn:Hall; [|auto].
    apply has_add in H. destruct H as [H|H]; [auto|].
    right. exists mark. auto.
Qed.

End ReconcilerFacts.

(** C9.  For a range selection the reconciler reports a mark as active
    only if every node the range iteration visits carries a mark of that
    name: one node without it keeps the name out of the active set.  In
    particular, for the range over a bold text node followed by a plain
    one, [strong] is not active, whatever marks the start position
    resolves to. *)
Theorem range_mark_needs_every_node
        (Doc : Type) (resolveMarks : Doc -> nat -> list Mark)
        (nodesBetween : Doc -> nat -> nat -> list Node)
        (state : EditorState Doc) (name : jsstring) (node : Node)
        (Hrange : empty (selection state) = false)
        (Hin : In node (nodesBetween (doc state) (from (selection state))
                                     (to (selection state))))
        (Hgap : carries node name = false) :
  has (activeMarks (updateToolbar resolveMarks nodesBetween state)) name
  = false
  /\ (forall marksAt : Tree -> nat -> list Mark,
        has (activeMarks (updateToolbar marksAt treeNodesBetween
                                        halfBoldSelected))
            (lit "strong") = false).
Proof.
  assert (General :
    forall (D : Type) (rm : D -> nat -> list Mark)
           (nb : D -> nat -> nat -> list Node) (st : EditorState D)
           (nm : jsstring) (nd : Node),
      empty (selection st) = false ->
      In nd (nb (doc st) (from (selection st)) (to (selection st))) ->
      carries nd nm = false ->
      has (activeMarks (updateToolbar rm nb st)) nm = false).
  { intros D rm nb st nm nd Hr Hi Hg.
    unfold updateToolbar. rewrite Hr. cbn [activeMarks].
    destruct (has (acc_marks (fold_left (checkMark nb st) _ _)) nm) eqn:Hhas;
      [|reflexivity].
    apply checkMark_fold_has in Hhas.
    destruct Hhas as [Hhas | [mark [Hname Hall]]]; [discriminate Hhas|].
    rewrite forallb_forall in Hall. specialize (Hall nd Hi).
    unfold nodeHasMark, sameType in Hall. rewrite Hname in Hall.
    unfold carries in Hg. rewrite Hall in Hg. discriminate Hg. }
  split.
  - exact (General Doc resolveMarks nodesBetween state name node
                   Hrange Hin Hgap).
  - intros marksAt.
    apply (General Tree marksAt treeNodesBetween halfBoldSelected
                   (lit "strong") (mkNode []));
      [reflexivity | | reflexivity].
    vm_compute. right. right. left. reflexivity.
Qed.

Lemma range_mark_needs_every_node_witness :
  has (activeMarks (updateToolbar (fun _ _ => [strong]) treeNodesBetween
                                  halfBoldSelected))
      (lit "strong") = false.
Proof.
  exact (proj1
    (range_mark_needs_every_node Tree (fun _ _ => [strong]) treeNodesBetween
       halfBoldSelected (lit "strong") (mkNode [])
       eq_refl (or_intror (or_intror (or_introl eq_refl))) eq_refl)).
Defined.

End ToolbarFacts.

(* ================================================================== *)
(** ** The retry schedule in general *)
(* ================================================================== *)

Module RetryScheduleFacts.
Import AiService AiServiceFacts.

Lemma invocations_backoff (d : Z) (attempt rounds : nat) :
  invocations (backoff d attempt rounds) = rounds.
Proof.
  revert attempt. induction rounds as [|rounds IH]; intros attempt.
  - reflexivity.
  - cbn [backoff]. unfold invocations in *. cbn [filter length].
    rewrite IH. reflexivity.
Qed.

Lemma sleeps_app (a b : list Event) : sleeps (a ++ b) = sleeps a ++ sleeps b.
Proof.
  induction a as [|ev a IH]; [reflexivity|].
  destruct ev; cbn [app sleeps]; rewrite IH; reflexivity.
Qed.

Lemma sleeps_backoff (d : Z) (attempt rounds : nat) :
  sleeps (backoff d attempt rounds)
  = map (fun i => (d * 2 ^ Z.of_nat i)%Z) (seq attempt rounds).
Proof.
  revert attempt. induction rounds as [|rounds IH]; intros attempt.
  - reflexivity.
  - cbn [backoff sleeps seq map]. rewrite IH. reflexivity.
Qed.

(** The waits [d * 2^a, ..., d * 2^(a+k-1)] add up to
    [d * 2^a * (2^k - 1)]. *)
Lemma geometric_wait (d : Z) (a k : nat) :
  fold_right Z.add 0%Z (map (fun i => (d * 2 ^ Z.of_nat i)%Z) (seq a k))
  = (d * 2 ^ Z.of_nat a * (2 ^ Z.of_nat k - 1))%Z.
Proof.
  revert a. induction k as [|k IH]; intros a.
  - cbn. lia.
  - cbn [seq map fold_right]. rewrite IH.
    rewrite !Nat2Z.inj_succ, !Z.pow_succ_r by lia. ring.
Qed.

Section Schedule.

Variables (Env T : Type) (f : Env -> Outcome T * Env).
Variables (n : nat) (d : Z).
Variables (es : nat -> Env) (errs : nat -> Thrown).

(** From iteration [a] on: [k] retryable failures and then a decisive
    attempt. *)
Lemma retryLoop_schedule (k : nat) :
  forall (a : nat) (last : option jsstring) (tr : list Event)
         (o : Outcome T) (e' : Env),
    (a + k < n)%nat ->
    (forall i, (a <= i < a + k)%nat ->
               f (es i) = (Rejected (errs i), es (S i))
               /\ isRetryable (caught (errs i)) = true) ->
    f (es (a + k)) = (o, e') ->
    decisive n (a + k) o ->
    retryLoop (perform f) n d (n - a) a last (mkWorld (es a) tr)
    = (propagated o, mkWorld e' (tr ++ backoff d a k ++ [Invoke])).
Proof.
  induction k as [|k IH]; intros a last tr o e' Hlt Hfail Hstop Hdec.
  - rewrite Nat.add_0_r in *.
    replace (n - a)%nat with (S (n - S a)) by lia.
    rewrite retryLoop_step, Hstop.
    destruct o as [v|err]; [reflexivity|].
    cbn [decisive] in Hdec. cbn [propagated backoff app].
    assert (Hc : negb (isRetryable (caught err))
                 || (Z.of_nat a =? Z.of_nat n - 1)%Z = true).
    { destruct Hdec as [Hr|Hl].
      - rewrite Hr. reflexivity.
      - apply orb_true_iff. right. apply Z.eqb_eq. lia. }
    rewrite Hc. reflexivity.
  - replace (n - a)%nat with (S (n - S a)) by lia.
    destruct (Hfail a ltac:(lia)) as [Hf Hr].
    rewrite retryLoop_step, Hf, Hr.
    assert (Hc : (Z.of_nat a =? Z.of_nat n - 1)%Z = false)
      by (apply Z.eqb_neq; lia).
    rewrite Hc. cbn [negb orb].
    rewrite (IH (S a) (Some (caught (errs a))) _ o e').
    + cbn [backoff]. rewrite <- !app_assoc. reflexivity.
    + lia.
    + intros i Hi. apply Hfail. lia.
    + replace (S a + k)%nat with (a + S k)%nat by lia. exact Hstop.
    + replace (S a + k)%nat with (a + S k)%nat by lia. exact Hdec.
Qed.

End Schedule.

(** X1.  [retryWithBackoff(fn, maxRetries, d)] stops at the first attempt
    that succeeds, fails with an error that is not retryable, or is the
    last one allowed: after [k] retryable failures, [fn] has been invoked
    [k + 1] times, the wait after failure number [i] was [d * 2^i], and
    the decisive attempt's result is returned or its error raised. *)
Theorem retry_stops_at_decisive_attempt
        (Env T : Type) (f : Env -> Outcome T * Env) (n : nat) (d : Z)
        (es : nat -> Env) (errs : nat -> Thrown) (k : nat)
        (o : Outcome T) (e' : Env) (tr : list Event)
        (Hlt : (k < n)%nat)
        (Hfail : forall i, (i < k)%nat ->
                           f (es i) = (Rejected (errs i), es (S i))
                           /\ isRetryable (caught (errs i)) = true)
        (Hstop : f (es k) = (o, e'))
        (Hdec : decisive n k o) :
  retryWithBackoff (perform f) n d (mkWorld (es 0%nat) tr)
  = (propagated o, mkWorld e' (tr ++ backoff d 0 k ++ [Invoke])).
Proof.
  unfold retryWithBackoff.
  replace n with (n - 0)%nat at 2 by lia.
  apply (retryLoop_schedule Env T f n d es errs k 0%nat None tr o e');
    cbn [Nat.add]; auto.
  intros i Hi. apply Hfail. lia.
Qed.

Lemma retry_stops_at_decisive_attempt_witness :
  retryWithBackoff (perform flaky) 5 250 (mkWorld 0%nat [])
  = (Fulfilled 42%nat,
     mkWorld 3%nat [Invoke; Sleep 250; Invoke; Sleep 500; Invoke]).
Proof.
  refine (retry_stops_at_decisive_attempt nat nat flaky 5 250
            (fun i => i)
            (fun i => match i with
                      | O => ErrorObject (lit "503 Service Unavailable")
                      | _ => ErrorObject (lit "429 Too Many Requests")
                      end)
            2 (Fulfilled 42%nat) 3%nat [] _ _ eq_refl I).
  - lia.
  - intros [|[|i]] Hi; [split; reflexivity | split; reflexivity | lia].
Defined.

Section Exhaustion.

Variables (Env T : Type) (f : Env -> Outcome T * Env).
Variables (n : nat) (d : Z).

(** From iteration [attempt] on, with [S remaining] iterations left and
    every one of them failing with a retryable error. *)
Lemma retryLoop_exhausted (remaining : nat) :
  forall (attempt : nat) (last : option jsstring) (e : Env)
         (tr : list Event) (errs : nat -> Thrown),
    (attempt + S remaining = n)%nat ->
    (forall i, (i <= remaining)%nat ->
               fst (f (afterCalls f i e)) = Rejected (errs i)
               /\ isRetryable (caught (errs i)) = true) ->
    retryLoop (perform f) n d (S remaining) attempt last (mkWorld e tr)
    = (Rejected (ErrorObject (caught (errs remaining))),
       mkWorld (afterCalls f (S remaining) e)
               (tr ++ backoff d attempt remaining ++ [Invoke])).
Proof.
  induction remaining as [|remaining IH];
    intros attempt last e tr errs Hn Hfail.
  - rewrite retryLoop_step.
    destruct (Hfail 0%nat (Nat.le_refl _)) as [Hf Hr].
    cbn [afterCalls] in *.
    destruct (f e) as [o e1]. cbn [fst snd] in *. subst o.
    rewrite Hr.
    replace (Z.of_nat attempt =? Z.of_nat n - 1)%Z with true
      by (symmetry; apply Z.eqb_eq; lia).
    reflexivity.
  - rewrite retryLoop_step.
    destruct (Hfail 0%nat ltac:(lia)) as [Hf Hr].
    cbn [afterCalls] in Hf.
    assert (Hrest : forall i, (i <= remaining)%nat ->
                fst (f (afterCalls f i (snd (f e)))) = Rejected (errs (S i))
                /\ isRetryable (caught (errs (S i))) = true).
    { intros i Hi. exact (Hfail (S i) ltac:(lia)). }
    change (afterCalls f (S (S remaining)) e)
      with (afterCalls f (S remaining) (snd (f e))).
    destruct (f e) as [o e1]. cbn [fst snd] in *. subst o.
    rewrite Hr.
    replace (Z.of_nat attempt =? Z.of_nat n - 1)%Z with false
      by (symmetry; apply Z.eqb_neq; lia).
    cbn [negb orb].
    rewrite (IH (S attempt) (Some (caught (errs 0%nat))) e1 _
                (fun i => errs (S i)) ltac:(lia) Hrest).
    cbn [backoff]. rewrite <- !app_assoc. reflexivity.
Qed.

End Exhaustion.

(** X2.  Two statements, each under its own assumptions.  When each of
    the first [maxRetries] calls of [fn] fails with a retryable error,
    call number [i] with the error [errs i], then
    [retryWithBackoff(fn, maxRetries, d)] with [maxRetries = n + 1]
    invokes [fn] exactly [maxRetries] times, waits
    [d, 2d, ..., d * 2^(maxRetries-2)] in between,
    [d * (2^(maxRetries-1) - 1)] in all (no wait follows the last
    failure), and raises the error of the last call, [errs n], leaving
    [fn] in the state after [maxRetries] calls.  And with
    [maxRetries = 0] the operation is never invoked and
    ["Max retries exceeded"] is raised. *)
Theorem retry_exhausted_totals :
  (forall (Env T : Type) (f : Env -> Outcome T * Env) (n : nat) (d : Z)
          (e : Env) (tr : list Event) (errs : nat -> Thrown),
      (forall i, (i <= n)%nat ->
                 fst (f (afterCalls f i e)) = Rejected (errs i)
                 /\ isRetryable (caught (errs i)) = true) ->
      retryWithBackoff (perform f) (S n) d (mkWorld e tr)
      = (Rejected (ErrorObject (caught (errs n))),
         mkWorld (afterCalls f (S n) e) (tr ++ backoff d 0 n ++ [Invoke]))
      /\ invocations (backoff d 0 n ++ [Invoke]) = S n
      /\ sleeps (backoff d 0 n ++ [Invoke])
         = map (fun i => (d * 2 ^ Z.of_nat i)%Z) (seq 0 n)
      /\ waited (backoff d 0 n ++ [Invoke]) = (d * (2 ^ Z.of_nat n - 1))%Z)
  /\ (forall (Env T : Type) (fn : Js Env T) (d : Z) (w : World Env),
        retryWithBackoff fn 0 d w
        = (Rejected (ErrorObject (lit "Max retries exceeded")), w)).
Proof.
  split; [|reflexivity].
  intros Env T f n d e tr errs Hfail.
  assert (Hsl : sleeps (backoff d 0 n ++ [Invoke])
                = map (fun i => (d * 2 ^ Z.of_nat i)%Z) (seq 0 n)).
  { rewrite sleeps_app, sleeps_backoff. apply app_nil_r. }
  split; [|split; [|split]].
  - unfold retryWithBackoff.
    apply (retryLoop_exhausted Env T f (S n) d n 0%nat None e tr errs);
      [reflexivity | exact Hfail].
  - rewrite invocations_app, invocations_backoff. unfold invocations.
    cbn [filter length]. lia.
  - exact Hsl.
  - unfold waited. rewrite Hsl, geometric_wait.
    change (2 ^ Z.of_nat 0)%Z with 1%Z. ring.
Qed.

Lemma retry_exhausted_totals_witness :
  retryWithBackoff (perform neverAnswers) 3 1000 (mkWorld 0%nat [])
  = (Rejected (ErrorObject (lit "429 quota exceeded")),
     mkWorld 3%nat [Invoke; Sleep 1000; Invoke; Sleep 2000; Invoke])
  /\ waited [Invoke; Sleep 1000; Invoke; Sleep 2000; Invoke] = 3000%Z.
Proof.
  assert (Hfail : forall i, (i <= 2)%nat ->
            fst (neverAnswers (afterCalls neverAnswers i 0%nat))
            = Rejected (ErrorObject (if (i <? 2)%nat
                                     then lit "503 overloaded"
                                     else lit "429 quota exceeded"))
            /\ isRetryable (caught (ErrorObject (if (i <? 2)%nat
                                                 then lit "503 overloaded"
                                                 else lit "429 quota exceeded")))
               = true).
  { intros [|[|[|i]]] Hi; [split; reflexivity .. | lia]. }
  pose proof (proj1 retry_exhausted_totals nat nat neverAnswers 2%nat 1000%Z
                0%nat []
                (fun i => ErrorObject (if (i <? 2)%nat
                                       then lit "503 overloaded"
                                       else lit "429 quota exceeded"))
                Hfail) as H.
  split; [exact (proj1 H) | exact (proj2 (proj2 (proj2 H)))].
Defined.

End RetryScheduleFacts.

(* ================================================================== *)
(** ** Which failures are retried, and which offer the retry button *)
(* ================================================================== *)

Module ErrorMappingFacts.
Import AiService AiServiceFacts.

(** The prefix of the generic message hides no signature and completes
    none. *)
Lemma includes_generationFailed (m p : jsstring) :
  In p signatures ->
  includes (generationFailed ++ m) p = includes m p.
Proof.
  unfold signatures. cbn [In].
  intros H; repeat (destruct H as [<-|H]; [reflexivity|]); contradiction.
Qed.

Ltac split_tests :=
  repeat match goal with
         | H : (_ || _) = false |- _ =>
             apply orb_false_elim in H; destruct H
         end.

Ltac generic_message m :=
  rewrite ?(includes_generationFailed m (lit "503")),
          ?(includes_generationFailed m (lit "overloaded")),
          ?(includes_generationFailed m (lit "429")),
          ?(includes_generationFailed m (lit "quota")),
          ?(includes_generationFailed m (lit "network")),
          ?(includes_generationFailed m (lit "ECONNRESET")),
          ?(includes_generationFailed m (lit "ETIMEDOUT")),
          ?(includes_generationFailed m (lit "404")),
          ?(includes_generationFailed m (lit "not found"))
    by (unfold signatures; cbn [In]; tauto).

(** What the outer handler makes of an [Error] with message [m]. *)
Lemma mapError_cases (m : jsstring) :
  mapError (ErrorObject m)
  = ErrorObject
      (if keyRejected m then invalidKey
       else if quotaExceeded m then quotaMessage
       else if overloaded m then overloadedMessage
       else if notFound m then modelUnavailable
       else generationFailed ++ m).
Proof.
  unfold mapError, keyRejected, quotaExceeded, overloaded, notFound.
  destruct (includes m (lit "API_KEY") || includes m (lit "401"));
    [reflexivity|].
  destruct (includes m (lit "quota") || includes m (lit "429"));
    [reflexivity|].
  destruct (includes m (lit "503") || includes m (lit "overloaded"));
    [reflexivity|].
  destruct (includes m (lit "404") || includes m (lit "not found"));
    reflexivity.
Qed.

Lemma isRetryable_mapError (m : jsstring) :
  isRetryable (caught (mapError (ErrorObject m)))
  = negb (keyRejected m)
    && (quotaExceeded m
        || overloaded m
        || (negb (notFound m) && transportFailure m)).
Proof.
  rewrite mapError_cases. unfold caught, normalize.
  destruct (keyRejected m) eqn:K; [reflexivity|].
  destruct (quotaExceeded m) eqn:Q; [reflexivity|].
  destruct (overloaded m) eqn:O; [reflexivity|].
  destruct (notFound m) eqn:N; [reflexivity|].
  cbn [negb andb orb].
  unfold quotaExceeded, overloaded, notFound in *. split_tests.
  unfold isRetryable, transportFailure. generic_message m.
  repeat match goal with H : includes m _ = false |- _ => rewrite H end.
  cbn [negb andb orb]. rewrite !andb_true_r. reflexivity.
Qed.

Lemma showRetry_mapError (m : jsstring) :
  App.showRetry (caught (mapError (ErrorObject m)))
  = negb (keyRejected m) && (quotaExceeded m || overloaded m).
Proof.
  rewrite mapError_cases. unfold caught, normalize.
  destruct (keyRejected m) eqn:K; [reflexivity|].
  destruct (quotaExceeded m) eqn:Q; [reflexivity|].
  destruct (overloaded m) eqn:O; [reflexivity|].
  destruct (notFound m) eqn:N; [reflexivity|].
  cbn [negb andb orb].
  unfold quotaExceeded, overloaded in *. split_tests.
  unfold App.showRetry. generic_message m.
  repeat match goal with H : includes m _ = false |- _ => rewrite H end.
  reflexivity.
Qed.

(** A failure that gets the retry button is one the retry loop retries. *)
Lemma showRetry_isRetryable (error : Thrown) :
  App.showRetry (caught (mapError error)) = true ->
  isRetryable (caught (mapError error)) = true.
Proof.
  destruct error as [m|]; [|discriminate].
  rewrite showRetry_mapError, isRetryable_mapError.
  destruct (keyRejected m); [discriminate|].
  cbn [negb andb]. intros ->. reflexivity.
Qed.

(** X3.  Which failed attempts [continueWriting] follows with another
    one.  The retry test sees the message the outer handler produced, so
    an iteration of the retry loop whose attempt failed in the fallback
    loop is followed by a wait of [1000 * 2^attempt] ms and another
    iteration exactly when it is not the third one (attempt index 2) and
    the failure is an [Error] whose provider message has no key signature
    and either has a quota or overload signature, or has a transport
    signature and no not-found signature.  In every other case, and so
    for every failure of the third attempt and for every thrown value
    that is not an [Error], the handler's error is raised at once. *)
Theorem retried_failures
        (Env : Type)
        (generateContent :
           jsstring -> jsstring -> Env
           -> Outcome (option GenerateContentResult) * Env)
        (undefinedMessage p : jsstring)
        (e : Env) (tr : list Event) (error : Thrown) (w1 : World Env)
        (remaining attempt : nat) (lastError : option jsstring)
        (Hfail : generate generateContent undefinedMessage p
                          (mkWorld e (tr ++ [Invoke]))
                 = (Rejected error, w1)) :
  retryLoop (attemptGeneration generateContent undefinedMessage p) 3 1000
            (S remaining) attempt lastError (mkWorld e tr)
  = if retriedFailure error && negb (attempt =? 2)%nat
    then retryLoop (attemptGeneration generateContent undefinedMessage p)
                   3 1000 remaining (S attempt)
                   (Some (caught (mapError error)))
                   (mkWorld (env w1)
                            (trace w1 ++ [Sleep (1000 * 2 ^ Z.of_nat attempt)]))
    else (Rejected (ErrorObject (caught (mapError error))), w1).
Proof.
  rewrite retryLoop_unfold.
  unfold attemptGeneration at 1, bind, try. rewrite Hfail. cbn [throw].
  assert (Hr : isRetryable (caught (mapError error)) = retriedFailure error).
  { destruct error as [m|]; [apply isRetryable_mapError | reflexivity]. }
  rewrite Hr.
  assert (Hi : (Z.of_nat attempt =? Z.of_nat 3 - 1)%Z = (attempt =? 2)%nat).
  { destruct (Nat.eqb_spec attempt 2) as [->|Hne]; [reflexivity|].
    apply Z.eqb_neq. lia. }
  rewrite Hi.
  destruct (retriedFailure error), (attempt =? 2)%nat; reflexivity.
Qed.

Lemma retried_failures_witness :
  retryLoop (attemptGeneration alwaysOverloaded (lit "") (lit "p")) 3 1000
            3 0 None (mkWorld 0%nat [])
  = retryLoop (attemptGeneration alwaysOverloaded (lit "") (lit "p")) 3 1000
              2 1 (Some overloadedMessage)
              (mkWorld 1%nat [Invoke; Generate (lit "gemini-2.5-flash") (lit "p");
                              Sleep 1000])
  /\ retryLoop (attemptGeneration alwaysOverloaded (lit "") (lit "p")) 3 1000
               1 2 (Some overloadedMessage) (mkWorld 2%nat [])
     = (Rejected (ErrorObject overloadedMessage),
        mkWorld 3%nat [Invoke; Generate (lit "gemini-2.5-flash") (lit "p")]).
Proof.
  split.
  - exact (retried_failures nat alwaysOverloaded (lit "") (lit "p")
             0%nat [] (ErrorObject (lit "[503] The model is overloaded."))
             (mkWorld 1%nat [Invoke; Generate (lit "gemini-2.5-flash") (lit "p")])
             2%nat 0%nat None eq_refl).
  - exact (retried_failures nat alwaysOverloaded (lit "") (lit "p")
             2%nat [] (ErrorObject (lit "[503] The model is overloaded."))
             (mkWorld 3%nat [Invoke; Generate (lit "gemini-2.5-flash") (lit "p")])
             0%nat 2%nat (Some overloadedMessage) eq_refl).
Defined.

(** X4.  When the error panel offers the retry button: for an attempt
    that failed with provider message [m], exactly when [m] has no key
    signature and has a quota or an overload signature; never for a
    thrown value that is not an [Error].  Every failure that gets the
    button is one [continueWriting] retries by itself. *)
Theorem retry_button_failures (m : jsstring) :
  App.showRetry (caught (mapError (ErrorObject m)))
  = negb (keyRejected m) && (quotaExceeded m || overloaded m)
  /\ App.showRetry (caught (mapError OtherValue)) = false
  /\ implb (App.showRetry (caught (mapError (ErrorObject m))))
           (isRetryable (caught (mapError (ErrorObject m)))) = true.
Proof.
  split; [apply showRetry_mapError|]. split; [reflexivity|].
  destruct (App.showRetry (caught (mapError (ErrorObject m)))) eqn:E;
    [|reflexivity].
  cbn [implb]. apply showRetry_isRetryable, E.
Qed.

End ErrorMappingFacts.

(* ================================================================== *)
(** ** What a call of [continueWriting] does to the outside *)
(* ================================================================== *)

Module ClientTraceFacts.
Import AiService AiServiceFacts RetryScheduleFacts ErrorMappingFacts.

Lemma requests_app (a b : list Event) :
  requests (a ++ b) = (requests a + requests b)%nat.
Proof. unfold requests. rewrite filter_app, length_app. reflexivity. Qed.

Lemma requests_requestsFor (p : jsstring) (k : nat) (models : list jsstring) :
  (requests (requestsFor p k models) <= k)%nat.
Proof.
  unfold requestsFor, requests.
  revert k. induction models as [|m models IH]; intros [|k]; cbn; try lia.
  specialize (IH k). lia.
Qed.

Lemma invocations_requestsFor (p : jsstring) (k : nat) (models : list jsstring) :
  invocations (requestsFor p k models) = 0%nat.
Proof.
  unfold requestsFor, invocations.
  revert k. induction models as [|m models IH]; intros [|k]; cbn; auto.
Qed.

Lemma sleeps_requestsFor (p : jsstring) (k : nat) (models : list jsstring) :
  sleeps (requestsFor p k models) = [].
Proof.
  unfold requestsFor.
  revert k. induction models as [|m models IH]; intros [|k]; cbn; auto.
Qed.

Lemma firstn_incl {A} (k : nat) (l : list A) (x : A) :
  In x (firstn k l) -> In x l.
Proof.
  revert k. induction l as [|a l IH]; intros [|k]; cbn; try tauto.
  intros [H|H]; [auto | right; eapply IH, H].
Qed.

Lemma expected_requestsFor (p : jsstring) (k : nat) :
  Forall (expected p) (requestsFor p k modelsToTry).
Proof.
  unfold requestsFor. apply Forall_forall. intros ev Hin.
  apply in_map_iff in Hin. destruct Hin as [m [<- Hm]].
  cbn [expected]. split; [|reflexivity].
  eapply firstn_incl, Hm.
Qed.

Section Attempt.

Variable Env : Type.
Variable generateContent :
  jsstring -> jsstring -> Env -> Outcome (option GenerateContentResult) * Env.
Variable undefinedMessage : jsstring.

(** The fallback loop asks the models in list order, without skipping or
    repeating one, and stops somewhere in the list. *)
Lemma modelLoop_trace (p : jsstring) (models : list jsstring) :
  forall (result : option GenerateContentResult) (last : option jsstring)
         (w : World Env),
  exists k,
    (k <= length models)%nat
    /\ (models <> [] -> 1 <= k)%nat
    /\ trace (snd (modelLoop generateContent p models result last w))
       = trace w ++ requestsFor p k models.
Proof.
  induction models as [|m rest IH]; intros result last [e tr].
  - exists 0%nat. cbn. rewrite app_nil_r. repeat split; auto.
    intros H; contradiction H; reflexivity.
  - rewrite modelLoop_step.
    destruct (generateContent m p e) as [[r|err] e'].
    + destruct (hasResponse r).
      * exists 1%nat. cbn. repeat split; auto; lia.
      * destruct (IH r last (mkWorld e' (tr ++ [Generate m p])))
          as [k [Hk [_ Ht]]].
        exists (S k). rewrite Ht. cbn [trace length].
        unfold requestsFor. cbn [firstn map]. rewrite <- app_assoc.
        repeat split; auto; lia.
    + cbn zeta. destruct (notFound (modelMessage err)).
      * destruct (IH result (Some (modelMessage err))
                     (mkWorld e' (tr ++ [Generate m p])))
          as [k [Hk [_ Ht]]].
        exists (S k). rewrite Ht. cbn [trace length].
        unfold requestsFor. cbn [firstn map]. rewrite <- app_assoc.
        repeat split; auto; lia.
      * exists 1%nat. cbn. repeat split; auto; lia.
Qed.

Lemma generate_trace (p : jsstring) (w : World Env) :
  exists k,
    (1 <= k <= 5)%nat
    /\ trace (snd (generate generateContent undefinedMessage p w))
       = trace w ++ requestsFor p k modelsToTry.
Proof.
  destruct (modelLoop_trace p modelsToTry None None w) as [k [Hk [H1 Ht]]].
  exists k. split.
  - split; [apply H1; discriminate | exact Hk].
  - unfold generate, bind.
    destruct (modelLoop generateContent p modelsToTry None None w)
      as [[[result last]|err] w1]; cbn [snd] in *; [|exact Ht].
    destruct result as [r|]; [|exact Ht].
    destruct (response r); exact Ht.
Qed.

Lemma attemptGeneration_trace (p : jsstring) (w : World Env) :
  exists k,
    (1 <= k <= 5)%nat
    /\ trace (snd (attemptGeneration generateContent undefinedMessage p w))
       = trace w ++ requestsFor p k modelsToTry.
Proof.
  destruct (generate_trace p w) as [k [Hk Ht]].
  exists k. split; [exact Hk|].
  unfold attemptGeneration, bind, try.
  destruct (generate generateContent undefinedMessage p w) as [[v|err] w1];
    exact Ht.
Qed.

(** What an attempt raises went through the outer handler. *)
Lemma attemptGeneration_rejected (p : jsstring) (w w' : World Env)
      (e : Thrown) :
  attemptGeneration generateContent undefinedMessage p w = (Rejected e, w') ->
  exists original, e = mapError original.
Proof.
  unfold attemptGeneration, bind, try.
  destruct (generate generateContent undefinedMessage p w) as [[v|err] w1];
    [discriminate|].
  unfold throw. intros H. inversion H. exists err. reflexivity.
Qed.

End Attempt.

Section Loop.

Variables (Env T : Type) (fn : Js Env T).
Variables (n : nat) (d : Z) (r : nat) (P : Event -> Prop).

(** [fn] neither calls itself nor waits, sends at most [r] requests, and
    its events satisfy [P]. *)
Hypothesis quiet :
  forall w, exists events,
    trace (snd (fn w)) = trace w ++ events
    /\ invocations events = 0%nat
    /\ sleeps events = []
    /\ (requests events <= r)%nat
    /\ Forall P events.

Definition loopEvent (ev : Event) : Prop :=
  P ev \/ ev = Invoke
  \/ exists i, (S i < n)%nat /\ ev = Sleep (d * 2 ^ Z.of_nat i).

(** The case of a loop that ends with the call at hand. *)
Ltac single_attempt ev1 Ht1 Hi1 Hs1 Hp1 :=
  exists (Invoke :: ev1); cbn [snd fst];
  rewrite Ht1, <- app_assoc; cbn [app];
  change (Invoke :: ev1) with ([Invoke] ++ ev1);
  rewrite invocations_app, sleeps_app, requests_app, Hi1, Hs1;
  unfold invocations at 1, requests at 1; cbn;
  repeat split; auto; try lia; try discriminate;
  try (constructor; [right; left; reflexivity|];
       eapply Forall_impl; [|exact Hp1];
       let a := fresh in let Ha := fresh in intros a Ha; left; exact Ha).

Lemma retryLoop_trace (remaining : nat) :
  forall (attempt : nat) (last : option jsstring) (w : World Env),
    (attempt + S remaining = n)%nat ->
    exists events,
      trace (snd (retryLoop fn n d (S remaining) attempt last w))
      = trace w ++ events
      /\ (1 <= invocations events <= S remaining)%nat
      /\ sleeps events
         = map (fun i => (d * 2 ^ Z.of_nat i)%Z)
               (seq attempt (invocations events - 1))
      /\ (requests events <= r * invocations events)%nat
      /\ Forall loopEvent events
      /\ (forall msg,
            fst (retryLoop fn n d (S remaining) attempt last w)
            = Rejected (ErrorObject msg) ->
            isRetryable msg = true ->
            invocations events = S remaining).
Proof.
  induction remaining as [|remaining IH]; intros attempt last [e tr] Hn;
    rewrite retryLoop_unfold;
    destruct (quiet (mkWorld e (tr ++ [Invoke])))
      as [ev1 [Ht1 [Hi1 [Hs1 [Hr1 Hp1]]]]];
    destruct (fn (mkWorld e (tr ++ [Invoke]))) as [[v|err] w1];
    cbn [snd trace] in Ht1.
  - single_attempt ev1 Ht1 Hi1 Hs1 Hp1.
  - replace (Z.of_nat attempt =? Z.of_nat n - 1)%Z with true
      by (symmetry; apply Z.eqb_eq; lia).
    rewrite orb_true_r.
    single_attempt ev1 Ht1 Hi1 Hs1 Hp1.
  - single_attempt ev1 Ht1 Hi1 Hs1 Hp1.
  - replace (Z.of_nat attempt =? Z.of_nat n - 1)%Z with false
      by (symmetry; apply Z.eqb_neq; lia).
    rewrite orb_false_r.
    destruct (isRetryable (caught err)) eqn:Hretry; cbn [negb].
    + destruct (IH (S attempt) (Some (caught err))
                   (mkWorld (env w1)
                            (trace w1 ++ [Sleep (d * 2 ^ Z.of_nat attempt)])))
        as [ev2 [Ht2 [Hi2 [Hs2 [Hr2 [Hp2 Hlast]]]]]]; [lia|].
      exists (([Invoke] ++ ev1)
              ++ [Sleep (d * 2 ^ Z.of_nat attempt)] ++ ev2).
      assert (Hinv : invocations (([Invoke] ++ ev1)
                                  ++ [Sleep (d * 2 ^ Z.of_nat attempt)] ++ ev2)
                     = S (invocations ev2)).
      { rewrite !invocations_app, Hi1. reflexivity. }
      assert (Hreq : requests (([Invoke] ++ ev1)
                               ++ [Sleep (d * 2 ^ Z.of_nat attempt)] ++ ev2)
                     = (requests ev1 + requests ev2)%nat).
      { rewrite !requests_app. reflexivity. }
      rewrite Hinv, Hreq.
      split.
      { rewrite Ht2. cbn [trace]. rewrite Ht1, <- !app_assoc. reflexivity. }
      split; [lia|].
      split.
      { rewrite !sleeps_app, Hs1, Hs2. cbn [sleeps app].
        replace (S (invocations ev2) - 1)%nat
          with (S (invocations ev2 - 1)) by lia.
        reflexivity. }
      split; [lia|].
      split.
      { apply Forall_app. split.
        - constructor; [right; left; reflexivity|].
          eapply Forall_impl; [|exact Hp1]. intros a Ha. left. exact Ha.
        - constructor; [|exact Hp2].
          right. right. exists attempt. split; [lia | reflexivity]. }
      intros msg Hm Hr. specialize (Hlast msg Hm Hr). lia.
    + single_attempt ev1 Ht1 Hi1 Hs1 Hp1.
      intros msg Hm Hr. inversion Hm; subst. congruence.
Qed.

(** What the loop raises is what some call of [fn] raised, normalized. *)
Lemma retryLoop_rejected (remaining : nat) :
  forall (attempt : nat) (last : option jsstring) (w w' : World Env)
         (e : Thrown),
    retryLoop fn n d (S remaining) attempt last w = (Rejected e, w') ->
    exists w1 w2 e0,
      fn w1 = (Rejected e0, w2) /\ e = ErrorObject (caught e0).
Proof.
  induction remaining as [|remaining IH]; intros attempt last [e tr] w' err H;
    rewrite retryLoop_unfold in H;
    destruct (fn (mkWorld e (tr ++ [Invoke]))) as [[v|e0] w1] eqn:E;
    try discriminate H.
  - destruct (negb (isRetryable (caught e0))
              || (Z.of_nat attempt =? Z.of_nat n - 1)%Z).
    + inversion H; subst. eauto.
    + cbn [retryLoop] in H. unfold throw in H. inversion H; subst. eauto.
  - destruct (negb (isRetryable (caught e0))
              || (Z.of_nat attempt =? Z.of_nat n - 1)%Z).
    + inversion H; subst. eauto.
    + eapply IH. exact H.
Qed.

End Loop.

Section Call.

Variable Env : Type.
Variable generateContent :
  jsstring -> jsstring -> Env -> Outcome (option GenerateContentResult) * Env.
Variable undefinedMessage : jsstring.
Variable apiKey : option jsstring.

Lemma attempt_quiet (p : jsstring) (w : World Env) :
  exists events,
    trace (snd (attemptGeneration generateContent undefinedMessage p w))
    = trace w ++ events
    /\ invocations events = 0%nat
    /\ sleeps events = []
    /\ (requests events <= 5)%nat
    /\ Forall (expected p) events.
Proof.
  destruct (attemptGeneration_trace Env generateContent undefinedMessage p w)
    as [k [Hk Ht]].
  exists (requestsFor p k modelsToTry).
  split; [exact Ht|].
  split; [apply invocations_requestsFor|].
  split; [apply sleeps_requestsFor|].
  split; [pose proof (requests_requestsFor p k modelsToTry); lia|].
  apply expected_requestsFor.
Qed.

(** Past the two checks, a call is the retry loop over the attempts. *)
Lemma continueWriting_unfold (request : AIContinuationRequest)
      (w : World Env) :
  missing apiKey = false ->
  trim (text request) <> [] ->
  continueWriting generateContent undefinedMessage apiKey request w
  = retryLoop (attemptGeneration generateContent undefinedMessage
                                 (prompt (trim (text request))))
              3 1000 3 0 None w.
Proof.
  intros Hkey Htext. unfold continueWriting. rewrite Hkey.
  destruct (trim (text request)); [contradiction|]. reflexivity.
Qed.

Lemma continueWriting_refused (request : AIContinuationRequest)
      (w : World Env) :
  missing apiKey = true \/ trim (text request) = [] ->
  continueWriting generateContent undefinedMessage apiKey request w
  = (Rejected (ErrorObject (if missing apiKey
                            then notConfigured
                            else lit "No text provided.")), w).
Proof.
  intros H. unfold continueWriting.
  destruct (missing apiKey); [reflexivity|].
  destruct H as [H|H]; [discriminate|]. rewrite H. reflexivity.
Qed.

Lemma gate (request : AIContinuationRequest) :
  (missing apiKey = true \/ trim (text request) = [])
  \/ (missing apiKey = false /\ trim (text request) <> []).
Proof.
  destruct (missing apiKey); [left; left; reflexivity|].
  destruct (trim (text request)); [left; right; reflexivity|].
  right. split; [reflexivity | discriminate].
Qed.

End Call.

(** X5.  The budget of one call of [continueWriting]: at most 3 attempts,
    at most 5 requests per attempt and 15 in all, waits of 1000 ms and
    then 2000 ms at most (3000 ms in all), and every request goes to a
    model of the fallback list with the prompt built from the trimmed
    text. *)
Theorem continueWriting_budget
        (Env : Type)
        (generateContent :
           jsstring -> jsstring -> Env
           -> Outcome (option GenerateContentResult) * Env)
        (undefinedMessage : jsstring) (apiKey : option jsstring)
        (request : AIContinuationRequest) (w : World Env) :
  exists events,
    trace (snd (continueWriting generateContent undefinedMessage apiKey
                                request w))
    = trace w ++ events
    /\ (invocations events <= 3)%nat
    /\ (requests events <= 5 * invocations events)%nat
    /\ (requests events <= 15)%nat
    /\ (sleeps events = [] \/ sleeps events = [1000%Z]
        \/ sleeps events = [1000%Z; 2000%Z])
    /\ (waited events <= 3000)%Z
    /\ Forall (expected (prompt (trim (text request)))) events.
Proof.
  destruct (gate apiKey request) as [Hno|[Hkey Htext]].
  - rewrite (continueWriting_refused Env generateContent undefinedMessage
               apiKey request w Hno).
    exists []. cbn. rewrite app_nil_r.
    repeat split; auto; try lia.
  - rewrite (continueWriting_unfold Env generateContent undefinedMessage
               apiKey request w Hkey Htext).
    destruct (retryLoop_trace Env AIContinuationResponse
                (attemptGeneration generateContent undefinedMessage
                                   (prompt (trim (text request))))
                3 1000 5 (expected (prompt (trim (text request))))
                (attempt_quiet Env generateContent undefinedMessage _)
                2 0%nat None w eq_refl)
      as [events [Ht [Hi [Hs [Hr [Hp _]]]]]].
    exists events.
    assert (Hcases : invocations events = 1%nat \/ invocations events = 2%nat
                     \/ invocations events = 3%nat) by lia.
    split; [exact Ht|]. split; [lia|]. split; [lia|]. split; [lia|].
    split; [|split].
    + destruct Hcases as [H|[H|H]]; rewrite H in Hs; cbn in Hs; auto.
    + unfold waited.
      destruct Hcases as [H|[H|H]]; rewrite H in Hs; rewrite Hs; cbn; lia.
    + eapply Forall_impl; [|exact Hp].
      intros ev [H|[->|[i [Hi' ->]]]]; [exact H | exact I |].
      cbn [expected].
      destruct i as [|[|i]]; [left; reflexivity | right; reflexivity | lia].
Qed.

End ClientTraceFacts.


(* ================================================================== *)
(** ** More on [trim] *)
(* ================================================================== *)

Module TrimFacts.
Import JsStringFacts.

Lemma trimStart_snoc (l : jsstring) (c : codeunit) :
  isWhiteSpace c = false -> trimStart (l ++ [c]) = trimStart l ++ [c].
Proof.
  intros Hc. induction l as [|a l IH]; cbn [app trimStart].
  - rewrite Hc. reflexivity.
  - destruct (isWhiteSpace a); [exact IH | reflexivity].
Qed.

Lemma trimEnd_cons (c : codeunit) (t : jsstring) :
  isWhiteSpace c = false -> trimEnd (c :: t) = c :: trimEnd t.
Proof.
  intros Hc. unfold trimEnd. cbn [rev].
  rewrite (trimStart_snoc _ c Hc), rev_app_distr. reflexivity.
Qed.

(** A trimmed string is empty or starts with a character that is not
    white space. *)
Lemma trim_head (s : jsstring) :
  match trim s with
  | [] => True
  | c :: _ => isWhiteSpace c = false
  end.
Proof.
  unfold trim. pose proof (trimStart_head s) as H.
  destruct (trimStart s) as [|c t]; [exact I|].
  rewrite (trimEnd_cons c t H). exact H.
Qed.

Lemma trimEnd_idempotent (s : jsstring) : trimEnd (trimEnd s) = trimEnd s.
Proof.
  unfold trimEnd. rewrite rev_involutive. f_equal.
  pose proof (trimStart_head (rev s)) as H.
  destruct (trimStart (rev s)) as [|c t]; [reflexivity|].
  cbn [trimStart]. rewrite H. reflexivity.
Qed.

(** Trimming twice is trimming once. *)
Lemma trim_idempotent (s : jsstring) : trim (trim s) = trim s.
Proof.
  pose proof (trim_head s) as H. unfold trim at 1.
  destruct (trim s) as [|c t] eqn:E; [reflexivity|].
  cbn [trimStart]. rewrite H. rewrite <- E. unfold trim.
  apply trimEnd_idempotent.
Qed.

End TrimFacts.

(* ================================================================== *)
(** ** How a call of [continueWriting] ends *)
(* ================================================================== *)

Module ClientOutcomeFacts.
Import AiService AiServiceFacts RetryScheduleFacts ErrorMappingFacts.
Import ClientTraceFacts TrimFacts.

Lemma userFacing_mapError (original : Thrown) :
  userFacing (caught (mapError original)).
Proof.
  unfold userFacing. destruct original as [m|].
  - rewrite mapError_cases. unfold caught, normalize.
    destruct (keyRejected m); [tauto|].
    destruct (quotaExceeded m); [tauto|].
    destruct (overloaded m); [tauto|].
    destruct (notFound m); [tauto|].
    do 7 right. exists m. reflexivity.
  - cbn. tauto.
Qed.

Lemma extractContinuation_trimmed (resp : GenerateContentResponse)
      (out : AIContinuationResponse) :
  extractContinuation resp = Fulfilled out ->
  exists t, continuation out = trim t.
Proof.
  unfold extractContinuation.
  destruct (blank (secondaryText resp (primaryText resp))); [discriminate|].
  intros H. inversion H. eexists. reflexivity.
Qed.

Section Outcome.

Variable Env : Type.
Variable generateContent :
  jsstring -> jsstring -> Env -> Outcome (option GenerateContentResult) * Env.
Variable undefinedMessage : jsstring.

Lemma attemptGeneration_trimmed (p : jsstring) (w w' : World Env)
      (out : AIContinuationResponse) :
  attemptGeneration generateContent undefinedMessage p w = (Fulfilled out, w') ->
  exists t, continuation out = trim t.
Proof.
  unfold attemptGeneration, bind, try.
  destruct (generate generateContent undefinedMessage p w)
    as [[v|err] w1] eqn:E; [|discriminate].
  unfold ret. intros H. inversion H; subst. clear H.
  unfold generate, bind in E.
  destruct (modelLoop generateContent p modelsToTry None None w)
    as [[[result last]|err] w2]; [|discriminate].
  destruct result as [r|]; [|discriminate].
  destruct (response r) as [resp|]; [|discriminate].
  unfold settle in E. inversion E as [[Hout Hw]].
  eapply extractContinuation_trimmed, Hout.
Qed.

End Outcome.

(** A failed call raised an [Error] with a user-facing message. *)
Lemma continueWriting_rejected
        (Env : Type)
        (generateContent :
           jsstring -> jsstring -> Env
           -> Outcome (option GenerateContentResult) * Env)
        (undefinedMessage : jsstring) (apiKey : option jsstring)
        (request : AIContinuationRequest) (w : World Env) (e : Thrown)
        (Hfail : fst (continueWriting generateContent undefinedMessage apiKey
                                      request w) = Rejected e) :
  exists message,
    e = ErrorObject message
    /\ userFacing message
    /\ App.errorText e = message.
Proof.
  destruct (gate apiKey request) as [Hno|[Hkey Htext]].
  - rewrite (continueWriting_refused Env generateContent undefinedMessage
               apiKey request w Hno) in Hfail.
    cbn [fst] in Hfail. inversion Hfail; subst.
    eexists. split; [reflexivity|]. split; [|reflexivity].
    unfold userFacing. destruct (missing apiKey); tauto.
  - rewrite (continueWriting_unfold Env generateContent undefinedMessage
               apiKey request w Hkey Htext) in Hfail.
    destruct (retryLoop _ _ _ _ _ _ w) as [o w'] eqn:Hrun.
    cbn [fst] in Hfail. subst o.
    apply retryLoop_rejected in Hrun.
    destruct Hrun as [w1 [w2 [e0 [Hcall ->]]]].
    apply attemptGeneration_rejected in Hcall.
    destruct Hcall as [original ->].
    eexists. split; [reflexivity|]. split; [|reflexivity].
    apply userFacing_mapError.
Qed.

(** X6.  Every failure of [continueWriting] is an [Error] whose message
    is one of the user-facing ones: the configuration or the validation
    message, the key, quota, overload or model message, or a message that
    starts with ["Failed to generate paragraph"].  So the caller's
    fallback text for a thrown value that is not an [Error] is never
    used. *)
Theorem continueWriting_failure_messages
        (Env : Type)
        (generateContent :
           jsstring -> jsstring -> Env
           -> Outcome (option GenerateContentResult) * Env)
        (undefinedMessage : jsstring) (apiKey : option jsstring)
        (request : AIContinuationRequest) (w : World Env) (e : Thrown)
        (Hfail : fst (continueWriting generateContent undefinedMessage apiKey
                                      request w) = Rejected e) :
  exists message,
    e = ErrorObject message
    /\ userFacing message
    /\ App.errorText e = message.
Proof.
  exact (continueWriting_rejected Env generateContent undefinedMessage apiKey
           request w e Hfail).
Qed.

Lemma continueWriting_failure_messages_witness :
  exists message,
    ErrorObject (lit "No text provided.") = ErrorObject message
    /\ userFacing message
    /\ App.errorText (ErrorObject (lit "No text provided.")) = message.
Proof.
  exact (continueWriting_failure_messages nat thirdAnswers (lit "")
           (Some (lit "key")) (mkRequest (lit "  ")) (mkWorld 0%nat [])
           (ErrorObject (lit "No text provided.")) eq_refl).
Defined.

(** X7.  The continuation [continueWriting] returns is trimmed: trimming
    it again changes nothing, and it starts with a character that is not
    white space. *)
Theorem continuation_is_trimmed
        (Env : Type)
        (generateContent :
           jsstring -> jsstring -> Env
           -> Outcome (option GenerateContentResult) * Env)
        (undefinedMessage : jsstring) (apiKey : option jsstring)
        (request : AIContinuationRequest) (w : World Env)
        (out : AIContinuationResponse)
        (Hok : fst (continueWriting generateContent undefinedMessage apiKey
                                    request w) = Fulfilled out) :
  trim (continuation out) = continuation out
  /\ exists c rest,
       continuation out = c :: rest /\ isWhiteSpace c = false.
Proof.
  destruct (continueWriting generateContent undefinedMessage apiKey request w)
    as [o w'] eqn:Hrun.
  cbn [fst] in Hok. subst o.
  assert (Hne : continuation out <> []).
  { unfold continueWriting in Hrun.
    destruct (missing apiKey); [discriminate Hrun|].
    destruct (negb (truthy (trim (text request)))); [discriminate Hrun|].
    unfold retryWithBackoff in Hrun.
    apply retryLoop_fulfilled in Hrun. destruct Hrun as [wa Ha].
    eapply attemptGeneration_fulfilled, Ha. }
  assert (Htrim : exists t, continuation out = trim t).
  { unfold continueWriting in Hrun.
    destruct (missing apiKey); [discriminate Hrun|].
    destruct (negb (truthy (trim (text request)))); [discriminate Hrun|].
    unfold retryWithBackoff in Hrun.
    apply retryLoop_fulfilled in Hrun. destruct Hrun as [wa Ha].
    eapply attemptGeneration_trimmed, Ha. }
  destruct Htrim as [t Ht]. split.
  - rewrite Ht. apply trim_idempotent.
  - pose proof (trim_head t) as Hh. rewrite <- Ht in Hh.
    destruct (continuation out) as [|c rest]; [contradiction|].
    exists c, rest. split; [reflexivity | exact Hh].
Qed.

Lemma continuation_is_trimmed_witness :
  trim (lit "Once upon a time.") = lit "Once upon a time."
  /\ exists c rest,
       lit "Once upon a time." = c :: rest /\ isWhiteSpace c = false.
Proof.
  exact (continuation_is_trimmed nat thirdAnswers (lit "")
           (Some (lit "key")) (mkRequest (lit "Dragons")) (mkWorld 0%nat [])
           (mkResponse (lit "Once upon a time.")) eq_refl).
Defined.

(** X8.  Whenever [continueWriting] fails with a message for which the
    error panel offers the retry button, it has already made all three
    attempts, with the waits of 1000 ms and 2000 ms between them. *)
Theorem retry_button_after_three_attempts
        (Env : Type)
        (generateContent :
           jsstring -> jsstring -> Env
           -> Outcome (option GenerateContentResult) * Env)
        (undefinedMessage : jsstring) (apiKey : option jsstring)
        (request : AIContinuationRequest) (w : World Env)
        (message : jsstring)
        (Hfail : fst (continueWriting generateContent undefinedMessage apiKey
                                      request w)
                 = Rejected (ErrorObject message))
        (Hbutton : App.showRetry message = true) :
  exists events,
    trace (snd (continueWriting generateContent undefinedMessage apiKey
                                request w))
    = trace w ++ events
    /\ invocations events = 3%nat
    /\ sleeps events = [1000%Z; 2000%Z].
Proof.
  destruct (gate apiKey request) as [Hno|[Hkey Htext]].
  - rewrite (continueWriting_refused Env generateContent undefinedMessage
               apiKey request w Hno) in Hfail.
    cbn [fst] in Hfail. inversion Hfail; subst.
    destruct (missing apiKey); discriminate Hbutton.
  - rewrite (continueWriting_unfold Env generateContent undefinedMessage
               apiKey request w Hkey Htext) in *.
    destruct (retryLoop_trace Env AIContinuationResponse
                (attemptGeneration generateContent undefinedMessage
                                   (prompt (trim (text request))))
                3 1000 5 (expected (prompt (trim (text request))))
                (attempt_quiet Env generateContent undefinedMessage _)
                2 0%nat None w eq_refl)
      as [events [Ht [Hi [Hs [Hr [Hp Hlast]]]]]].
    assert (Hretry : isRetryable message = true).
    { destruct (retryLoop _ _ _ _ _ _ w) as [o w'] eqn:Hrun.
      cbn [fst] in Hfail. subst o.
      apply retryLoop_rejected in Hrun.
      destruct Hrun as [w1 [w2 [e0 [Hcall Heq]]]].
      apply attemptGeneration_rejected in Hcall.
      destruct Hcall as [original ->].
      inversion Heq; subst.
      apply showRetry_isRetryable, Hbutton. }
    specialize (Hlast message Hfail Hretry).
    exists events. split; [exact Ht|]. split; [exact Hlast|].
    rewrite Hs, Hlast. reflexivity.
Qed.

Lemma retry_button_after_three_attempts_witness :
  exists events,
    trace (snd (continueWriting alwaysOverloaded (lit "") (Some (lit "key"))
                                (mkRequest (lit "Dragons"))
                                (mkWorld 0%nat [])))
    = [] ++ events
    /\ invocations events = 3%nat
    /\ sleeps events = [1000%Z; 2000%Z].
Proof.
  exact (retry_button_after_three_attempts nat alwaysOverloaded (lit "")
           (Some (lit "key")) (mkRequest (lit "Dragons")) (mkWorld 0%nat [])
           overloadedMessage eq_refl eq_refl).
Defined.

(** The start of the aggregate message hides no signature and completes
    none. *)
Lemma includes_noModels (m p : jsstring) :
  In p signatures ->
  includes (noModels ++ m) p = includes m p.
Proof.
  unfold signatures. cbn [In].
  intros H; repeat (destruct H as [<-|H]; [reflexivity|]); contradiction.
Qed.

Lemma mapError_noModels (m : jsstring) :
  onlyNotFound m = true ->
  mapError (ErrorObject (noModels ++ m)) = ErrorObject modelUnavailable.
Proof.
  unfold onlyNotFound. intros H.
  repeat (apply andb_true_iff in H; destruct H as [H ?]).
  rewrite mapError_cases.
  unfold keyRejected, quotaExceeded, overloaded, notFound in *.
  rewrite !includes_noModels by (unfold signatures; cbn [In]; tauto).
  repeat match goal with
         | H : negb ?b = true |- _ => apply negb_true_iff in H; rewrite H
         end.
  rewrite H. reflexivity.
Qed.

Section Unavailable.

Variable Env : Type.
Variable generateContent :
  jsstring -> jsstring -> Env -> Outcome (option GenerateContentResult) * Env.
Variable undefinedMessage : jsstring.

Hypothesis none_found :
  forall model p e, exists err,
    fst (generateContent model p e) = Rejected err
    /\ onlyNotFound (modelMessage err) = true.

Lemma modelLoop_none_found (p : jsstring) (models : list jsstring) :
  forall (result : option GenerateContentResult) (last : option jsstring)
         (w : World Env),
  exists last' w',
    modelLoop generateContent p models result last w
    = (Fulfilled (result, last'), w')
    /\ trace w' = trace w ++ requestsFor p (length models) models
    /\ (models = [] -> last' = last)
    /\ (models <> [] ->
        exists m, last' = Some m /\ onlyNotFound m = true).
Proof.
  induction models as [|model rest IH]; intros result last [e tr].
  - exists last, (mkWorld e tr). cbn. rewrite app_nil_r.
    repeat split; auto. intros H. contradiction H. reflexivity.
  - rewrite modelLoop_step.
    destruct (none_found model p e) as [err [Hf Hc]].
    destruct (generateContent model p e) as [o e']. cbn [fst] in Hf. subst o.
    cbn zeta.
    assert (Hnf : notFound (modelMessage err) = true).
    { unfold onlyNotFound in Hc.
      repeat (apply andb_true_iff in Hc; destruct Hc as [Hc ?]). exact Hc. }
    rewrite Hnf.
    destruct (IH result (Some (modelMessage err))
                 (mkWorld e' (tr ++ [Generate model p])))
      as [last' [w' [Hrun [Ht [Hnil Hcons]]]]].
    exists last', w'. split; [exact Hrun|]. split.
    + rewrite Ht. cbn [trace length]. unfold requestsFor.
      cbn [firstn map]. rewrite <- app_assoc. reflexivity.
    + split; [discriminate|]. intros _.
      destruct rest as [|r rest'].
      * exists (modelMessage err). split; [apply Hnil; reflexivity | exact Hc].
      * apply Hcons. discriminate.
Qed.

Lemma attemptGeneration_none_found (p : jsstring) (w : World Env) :
  exists w',
    attemptGeneration generateContent undefinedMessage p w
    = (Rejected (ErrorObject modelUnavailable), w')
    /\ trace w' = trace w ++ requestsFor p 5 modelsToTry.
Proof.
  destruct (modelLoop_none_found p modelsToTry None None w)
    as [last' [w' [Hrun [Ht [_ Hcons]]]]].
  destruct (Hcons ltac:(discriminate)) as [m [-> Hm]].
  exists w'. split; [|exact Ht].
  unfold attemptGeneration, bind, try, generate, bind.
  rewrite Hrun.
  assert (Htruthy : truthy m = true).
  { destruct m; [discriminate Hm | reflexivity]. }
  rewrite Htruthy. unfold throw.
  change (lit "No available models found. Last error: ") with noModels.
  rewrite (mapError_noModels m Hm). reflexivity.
Qed.

End Unavailable.

(** X9.  A call past the two checks starts with an attempt on the first
    model of the list, ["gemini-2.5-flash"], with the prompt built from
    the trimmed text; without a configured credential no request is
    made, whatever the text. *)
Theorem first_request_goes_to_first_model
        (Env : Type)
        (generateContent :
           jsstring -> jsstring -> Env
           -> Outcome (option GenerateContentResult) * Env)
        (undefinedMessage : jsstring) (apiKey apiKey0 : option jsstring)
        (request request0 : AIContinuationRequest) (w : World Env)
        (Hkey : missing apiKey = false)
        (Htext : trim (text request) <> [])
        (Hkey0 : missing apiKey0 = true) :
  (exists events,
      trace (snd (continueWriting generateContent undefinedMessage apiKey
                                  request w))
      = trace w
        ++ Invoke
           :: Generate (lit "gemini-2.5-flash") (prompt (trim (text request)))
           :: events)
  /\ continueWriting generateContent undefinedMessage apiKey0 request0 w
     = (Rejected (ErrorObject notConfigured), w).
Proof.
  split.
  - rewrite (continueWriting_unfold Env generateContent undefinedMessage
               apiKey request w Hkey Htext).
    set (p := prompt (trim (text request))).
    destruct w as [e tr]. rewrite retryLoop_unfold.
    destruct (attemptGeneration_trace Env generateContent undefinedMessage p
                (mkWorld e (tr ++ [Invoke]))) as [k [Hk Ht]].
    destruct k as [|k]; [lia|].
    unfold requestsFor, modelsToTry in Ht. cbn [firstn map] in Ht.
    destruct (attemptGeneration generateContent undefinedMessage p
                (mkWorld e (tr ++ [Invoke]))) as [[v|err] w1];
      cbn [snd trace] in *.
    + eexists. rewrite Ht, <- app_assoc. reflexivity.
    + destruct (negb (isRetryable (caught err))
                || (Z.of_nat 0 =? Z.of_nat 3 - 1)%Z).
      * eexists. cbn [snd]. rewrite Ht, <- app_assoc. reflexivity.
      * destruct (retryLoop_trace Env AIContinuationResponse
                    (attemptGeneration generateContent undefinedMessage p)
                    3 1000 5 (expected p)
                    (attempt_quiet Env generateContent undefinedMessage p)
                    1 1%nat (Some (caught err))
                    (mkWorld (env w1)
                             (trace w1 ++ [Sleep (1000 * 2 ^ Z.of_nat 0)]))
                    eq_refl)
          as [events [Hev _]].
        eexists. rewrite Hev. cbn [trace]. rewrite Ht.
        rewrite <- !app_assoc. cbn [app]. reflexivity.
  - unfold continueWriting. rewrite Hkey0. reflexivity.
Qed.

Lemma first_request_goes_to_first_model_witness :
  exists events,
    trace (snd (continueWriting thirdAnswers (lit "") (Some (lit "key"))
                                (mkRequest (lit " Dragons "))
                                (mkWorld 0%nat [])))
    = [] ++ Invoke
         :: Generate (lit "gemini-2.5-flash") (prompt (lit "Dragons"))
         :: events.
Proof.
  exact (proj1
    (first_request_goes_to_first_model nat thirdAnswers (lit "")
       (Some (lit "key")) None
       (mkRequest (lit " Dragons ")) (mkRequest (lit "Dragons"))
       (mkWorld 0%nat [])
       eq_refl ltac:(discriminate) eq_refl)).
Defined.

(** X10.  When no model of the list is available (every request fails
    with a not-found signature and no key, quota or overload signature),
    a call past the two checks asks each of the five models once, in list
    order, in a single attempt without any wait, and fails with the
    model-unavailable message. *)
Theorem no_model_available
        (Env : Type)
        (generateContent :
           jsstring -> jsstring -> Env
           -> Outcome (option GenerateContentResult) * Env)
        (undefinedMessage : jsstring) (apiKey : option jsstring)
        (request : AIContinuationRequest) (w : World Env)
        (Hkey : missing apiKey = false)
        (Htext : trim (text request) <> [])
        (Hnone : forall model p e, exists err,
                   fst (generateContent model p e) = Rejected err
                   /\ onlyNotFound (modelMessage err) = true) :
  fst (continueWriting generateContent undefinedMessage apiKey request w)
  = Rejected (ErrorObject modelUnavailable)
  /\ trace (snd (continueWriting generateContent undefinedMessage apiKey
                                 request w))
     = trace w
       ++ Invoke
          :: map (fun model => Generate model (prompt (trim (text request))))
                 modelsToTry.
Proof.
  rewrite (continueWriting_unfold Env generateContent undefinedMessage
             apiKey request w Hkey Htext).
  destruct w as [e tr]. rewrite retryLoop_unfold.
  destruct (attemptGeneration_none_found Env generateContent undefinedMessage
              Hnone (prompt (trim (text request)))
              (mkWorld e (tr ++ [Invoke]))) as [w' [Hrun Ht]].
  rewrite Hrun.
  replace (negb (isRetryable (caught (ErrorObject modelUnavailable)))) with true
    by reflexivity.
  cbn [orb fst snd]. split; [reflexivity|].
  rewrite Ht. cbn [trace]. rewrite <- app_assoc. reflexivity.
Qed.

Lemma no_model_available_witness :
  fst (continueWriting noneExists (lit "") (Some (lit "key"))
                       (mkRequest (lit "Dragons")) (mkWorld 0%nat []))
  = Rejected (ErrorObject modelUnavailable).
Proof.
  exact (proj1
    (no_model_available nat noneExists (lit "") (Some (lit "key"))
       (mkRequest (lit "Dragons")) (mkWorld 0%nat [])
       eq_refl ltac:(discriminate)
       (fun model p e =>
          ex_intro _
            (ErrorObject (lit "[404] The model is not found for this API version."))
            (conj eq_refl eq_refl)))).
Defined.

End ClientOutcomeFacts.

(* ================================================================== *)
(** ** The machine through a generation cycle *)
(* ================================================================== *)

Module MachineCycleFacts.
Import EditorMachine EditorMachineFacts.

Lemma consistent_run (events : list EditorEvent) : consistent (run events).
Proof. apply consistent_fold, consistent_initial. Qed.

Lemma last_default {A} (a : A) (l : list A) (d d' : A) :
  last (a :: l) d = last (a :: l) d'.
Proof.
  revert a. induction l as [|b l IH]; intros a; [reflexivity|].
  change (last (b :: l) d = last (b :: l) d'). apply IH.
Qed.

Lemma content_updated_step (v : StateValue) (ctx : EditorContext)
      (text : jsstring) :
  transition (mkSnapshot v ctx) (CONTENT_UPDATED text)
  = mkSnapshot v (mkContext text (isLoading ctx) (error ctx)).
Proof. destruct v; reflexivity. Qed.

(** Typing in [loading] keeps the state and the flags and leaves the last
    typed content. *)
Lemma typing_while_loading (typed : list jsstring) (c : jsstring)
      (l : bool) (e : option jsstring) :
  fold_left transition (map CONTENT_UPDATED typed)
            (mkSnapshot loading (mkContext c l e))
  = mkSnapshot loading (mkContext (last typed c) l e).
Proof.
  revert c. induction typed as [|t typed IH]; intros c; [reflexivity|].
  cbn [map fold_left]. rewrite content_updated_step. cbn [isLoading error].
  rewrite IH. destruct typed as [|j typed]; [reflexivity|].
  change (last (t :: j :: typed) c) with (last (j :: typed) c).
  rewrite (last_default j typed t c). reflexivity.
Qed.

(** X11.  On every reachable configuration the Continue button is
    enabled exactly when the machine is in [idle] and [CONTINUE_WRITING]
    would take it to [loading]. *)
Theorem button_enabled_iff_accepted (events : list EditorEvent) :
  let s := run events in
  App.canContinue (context s) = true
  <-> (value s = idle /\ value (transition s CONTINUE_WRITING) = loading).
Proof.
  intros s. destruct (consistent_run events) as [Hl _]. fold s in Hl.
  unfold App.canContinue.
  destruct s as [v [c l e]]. cbn [context value isLoading content] in *.
  unfold transition, select. cbn [value context].
  destruct v; cbn [idle_on loading_on root_on].
  - unfold hasContent. cbn [content].
    destruct (0 <? length (trim c))%nat; cbn [andb value].
    + destruct l; cbn [negb].
      * destruct Hl as [Hl _]. discriminate (Hl eq_refl).
      * split; auto.
    + split; [discriminate | intros [_ H]; discriminate H].
  - destruct Hl as [_ Hl]. rewrite (Hl eq_refl). rewrite andb_false_r.
    split; [discriminate | intros [H _]; discriminate H].
Qed.

(** X12.  What the machine drops: a response or an error that arrives in
    [idle], in particular after a [RESET] that cancelled the cycle,
    changes nothing; and [CONTINUE_WRITING] in [loading] changes nothing,
    so a cycle cannot be started twice. *)
Theorem late_and_repeated_events_dropped
        (s : Snapshot) (ctx : EditorContext) (t e : jsstring) :
  transition (mkSnapshot idle ctx) (AI_RESPONSE t) = mkSnapshot idle ctx
  /\ transition (mkSnapshot idle ctx) (ERROR e) = mkSnapshot idle ctx
  /\ transition (transition s RESET) (AI_RESPONSE t) = transition s RESET
  /\ transition (transition s RESET) (ERROR e) = transition s RESET
  /\ transition (mkSnapshot loading ctx) CONTINUE_WRITING
     = mkSnapshot loading ctx
  /\ transition (transition (mkSnapshot idle ctx) CONTINUE_WRITING)
                CONTINUE_WRITING
     = transition (mkSnapshot idle ctx) CONTINUE_WRITING.
Proof.
  assert (Hstart :
    transition (mkSnapshot idle ctx) CONTINUE_WRITING
    = if hasContent ctx
      then mkSnapshot loading (entry loading ctx)
      else mkSnapshot idle ctx).
  { unfold transition, select. cbn [value context idle_on].
    destruct (hasContent ctx); reflexivity. }
  repeat split; try reflexivity; try (destruct s as [[|] c]; reflexivity).
  rewrite Hstart. destruct (hasContent ctx) eqn:H; [reflexivity|].
  exact Hstart.
Qed.

Lemma cycle_run
        (c : jsstring) (l : bool) (e : option jsstring)
        (typed : list jsstring) (t m : jsstring)
        (Hcontent : trim c <> []) :
  fold_left transition
            (CONTINUE_WRITING :: map CONTENT_UPDATED typed ++ [AI_RESPONSE t])
            (mkSnapshot idle (mkContext c l e))
  = mkSnapshot idle (mkContext (last typed c ++ lit " " ++ t) false None)
  /\ fold_left transition
               (CONTINUE_WRITING :: map CONTENT_UPDATED typed ++ [ERROR m])
               (mkSnapshot idle (mkContext c l e))
     = mkSnapshot idle (mkContext (last typed c) false (Some m)).
Proof.
  assert (Hstart :
    transition (mkSnapshot idle (mkContext c l e)) CONTINUE_WRITING
    = mkSnapshot loading (mkContext c true None)).
  { unfold transition, select. cbn [value context idle_on].
    unfold hasContent. cbn [content].
    destruct (trim c); [contradiction|]. reflexivity. }
  split; cbn [fold_left]; rewrite Hstart, fold_left_app,
    typing_while_loading; reflexivity.
Qed.

(** X13.  A whole cycle with typing in between: from [idle] with content
    that is not blank, [CONTINUE_WRITING], then any number of
    [CONTENT_UPDATED] events, then [AI_RESPONSE(t)] ends in [idle] with
    the last typed content (or the original one) followed by a space and
    [t], not loading and without error; ended by [ERROR(m)] instead, the
    content is the last typed one and the error is [m]. *)
Theorem cycle_with_typing
        (c : jsstring) (l : bool) (e : option jsstring)
        (typed : list jsstring) (t m : jsstring)
        (Hcontent : trim c <> []) :
  fold_left transition
            (CONTINUE_WRITING :: map CONTENT_UPDATED typed ++ [AI_RESPONSE t])
            (mkSnapshot idle (mkContext c l e))
  = mkSnapshot idle (mkContext (last typed c ++ lit " " ++ t) false None)
  /\ fold_left transition
               (CONTINUE_WRITING :: map CONTENT_UPDATED typed ++ [ERROR m])
               (mkSnapshot idle (mkContext c l e))
     = mkSnapshot idle (mkContext (last typed c) false (Some m)).
Proof. exact (cycle_run c l e typed t m Hcontent). Qed.

Lemma cycle_with_typing_witness :
  fold_left transition
            [CONTINUE_WRITING; CONTENT_UPDATED (lit "Dragons are");
             AI_RESPONSE (lit "old.")]
            (mkSnapshot idle (mkContext (lit "Dragons") false None))
  = mkSnapshot idle (mkContext (lit "Dragons are old.") false None).
Proof.
  exact (proj1 (cycle_with_typing (lit "Dragons") false None
                  [lit "Dragons are"] (lit "old.") (lit "x")
                  ltac:(discriminate))).
Defined.

End MachineCycleFacts.

(* ================================================================== *)
(** ** What streaming costs and what it dispatches *)
(* ================================================================== *)

Module StreamCostFacts.
Import Editor EditorFacts.

Lemma elapsed_app (a b : list Effect) :
  elapsed (a ++ b) = (elapsed a + elapsed b)%Z.
Proof.
  induction a as [|ef a IH]; [reflexivity|].
  destruct ef; cbn [app elapsed]; rewrite IH; lia.
Qed.

Lemma dispatched_app (a b : list Effect) :
  dispatched (a ++ b) = dispatched a ++ dispatched b.
Proof.
  induction a as [|ef a IH]; [reflexivity|].
  destruct ef; cbn [app dispatched]; rewrite IH; reflexivity.
Qed.

Lemma completions_app (a b : list Effect) :
  completions (a ++ b) = (completions a + completions b)%nat.
Proof. unfold completions. rewrite filter_app, length_app. reflexivity. Qed.

Lemma delay_bounds (c : codeunit) : (15 <= delay c <= 60)%Z.
Proof.
  unfold delay.
  destruct (isWhiteSpace c); [lia|].
  destruct (isPunctuation c); [lia|].
  destruct (isLetter c); lia.
Qed.

(** The split of the text into its leading newlines and the rest keeps
    every character. *)
Lemma stripNewlines_length (s acc : jsstring) :
  (length (fst (stripNewlines s acc)) + length (snd (stripNewlines s acc))
   = length acc + length s)%nat.
Proof.
  revert acc. induction s as [|c s IH]; intros acc; cbn [stripNewlines].
  - cbn. lia.
  - destruct (c =? 10)%N.
    + rewrite IH, length_app. cbn. lia.
    + cbn. lia.
Qed.

Section AnyEnvironment.

Variable during : nat -> option EditorView -> option EditorView.

(** Whatever happens during the pauses, the character loop dispatches at
    most one transaction per character and never waits longer than 60 ms
    for one; it does not call the callback. *)
Lemma streamLoop_cost (text : jsstring) :
  forall st : Stage,
  exists added,
    log (streamLoop during text st) = log st ++ added
    /\ (0 <= elapsed added <= 60 * Z.of_nat (length text))%Z
    /\ (length (dispatched added) <= length text)%nat
    /\ completions added = 0%nat.
Proof.
  induction text as [|c text IH]; intros st.
  - exists []. cbn. rewrite app_nil_r. repeat split; lia.
  - cbn [streamLoop]. destruct (current st) as [view|] eqn:Hv.
    + destruct (IH (pause during (delay c) (insertAtEnd [c] st)))
        as [added [Hlog [He [Hd Hc]]]].
      exists ([Dispatch [c]; Pause (delay c)] ++ added).
      rewrite Hlog. unfold pause, insertAtEnd. rewrite Hv. cbn [log].
      rewrite <- !app_assoc. cbn [app].
      pose proof (delay_bounds c).
      cbn [elapsed dispatched length]. unfold completions in *.
      cbn [filter]. repeat split; try lia; try exact Hc.
    + exists []. cbn. rewrite app_nil_r. repeat split; lia.
Qed.

End AnyEnvironment.

(** Left alone, the loop dispatches the characters one by one, in
    order. *)
Lemma streamLoop_dispatched (text doc : jsstring) (lg : list Effect)
      (n : nat) :
  exists added,
    log (streamLoop undisturbed text (mkStage (Some (mkView doc)) lg n))
    = lg ++ added
    /\ dispatched added = map (fun c => [c]) text.
Proof.
  revert doc lg n. induction text as [|c text IH]; intros doc lg n.
  - exists []. cbn. rewrite app_nil_r. auto.
  - cbn [streamLoop current].
    change (pause undisturbed (delay c)
                  (insertAtEnd [c] (mkStage (Some (mkView doc)) lg n)))
      with (mkStage (Some (mkView (doc ++ [c])))
                    ((lg ++ [Dispatch [c]]) ++ [Pause (delay c)]) (S n)).
    destruct (IH (doc ++ [c]) ((lg ++ [Dispatch [c]]) ++ [Pause (delay c)])
                 (S n)) as [added [Hlog Hd]].
    exists ([Dispatch [c]; Pause (delay c)] ++ added).
    rewrite Hlog, <- !app_assoc. cbn [app dispatched map].
    rewrite Hd. auto.
Qed.

Lemma concat_singletons (text : jsstring) :
  concat (map (fun c => [c]) text) = text.
Proof.
  induction text as [|c text IH]; [reflexivity|].
  cbn. rewrite IH. reflexivity.
Qed.

Lemma streamContent_cost
      (during : nat -> option EditorView -> option EditorView)
      (content : jsstring) (onComplete : bool) (view : EditorView)
      (lg : list Effect) (n : nat) :
  exists added,
    log (streamContent during content onComplete (mkStage (Some view) lg n))
    = lg ++ added
    /\ (elapsed added <= 60 * (Z.of_nat (length content) + 1))%Z
    /\ (length (dispatched added) <= length content + 1)%nat
    /\ completions added = if onComplete then 1%nat else 0%nat.
Proof.
  unfold streamContent. cbn [current].
  pose proof (stripNewlines_length content []) as Hlen.
  destruct (stripNewlines content []) as [nl rest]. cbn [fst snd length] in Hlen.
  destruct nl as [|c nl]; cbn [truthy negb].
  + set (text := if endsInWord (textContent view)
                 then lit " " ++ rest else rest).
    assert (Htext : (length text <= length content + 1)%nat).
    { subst text. destruct (endsInWord (textContent view));
        cbn [app length lit] in *; cbn; lia. }
    destruct (streamLoop_cost during text (mkStage (Some view) lg n))
      as [added [Hlog [He [Hd Hc]]]].
    cbn [log] in Hlog.
    destruct onComplete.
    * exists (added ++ [Complete]). cbn [log]. rewrite Hlog, <- app_assoc.
      rewrite elapsed_app, dispatched_app, completions_app, length_app, Hc.
      change (elapsed [Complete]) with 0%Z.
      change (dispatched [Complete]) with (@nil jsstring).
      change (completions [Complete]) with 1%nat.
      cbn [length]. repeat split; lia.
    * exists added. rewrite Hlog, Hc. repeat split; lia.
  + cbn [length] in Hlen.
    remember (pause during 30
                    (insertAtEnd (c :: nl) (mkStage (Some view) lg n)))
      as st1 eqn:Hst1.
    assert (Hlog1 : log st1 = (lg ++ [Dispatch (c :: nl)]) ++ [Pause 30])
      by (subst st1; reflexivity).
    destruct (streamLoop_cost during rest st1)
      as [added [Hlog [He [Hd Hc]]]].
    rewrite Hlog1 in Hlog.
    destruct onComplete.
    * exists ([Dispatch (c :: nl); Pause 30] ++ added ++ [Complete]).
      cbn [log]. rewrite Hlog.
      split; [rewrite <- !app_assoc; reflexivity|].
      rewrite !elapsed_app, !dispatched_app, !completions_app, !length_app, Hc.
      change (elapsed [Complete]) with 0%Z.
      change (dispatched [Complete]) with (@nil jsstring).
      change (completions [Complete]) with 1%nat.
      change (elapsed [Dispatch (c :: nl); Pause 30]) with 30%Z.
      change (completions [Dispatch (c :: nl); Pause 30]) with 0%nat.
      cbn [dispatched length]. repeat split; lia.
    * exists ([Dispatch (c :: nl); Pause 30] ++ added).
      rewrite Hlog.
      split; [rewrite <- !app_assoc; reflexivity|].
      rewrite !elapsed_app, !dispatched_app, !completions_app, !length_app, Hc.
      change (elapsed [Dispatch (c :: nl); Pause 30]) with 30%Z.
      change (completions [Dispatch (c :: nl); Pause 30]) with 0%nat.
      cbn [dispatched length]. repeat split; lia.
Qed.

Lemma streamContent_pieces (content doc : jsstring) (onComplete : bool)
      (lg : list Effect) (n : nat) :
  exists added,
    log (streamContent undisturbed content onComplete
                       (mkStage (Some (mkView doc)) lg n))
    = lg ++ added
    /\ concat (dispatched added) = boundary doc content ++ content.
Proof.
  unfold streamContent, boundary. cbn [current textContent].
  destruct (stripNewlines_spec content []) as [nl [H1 [H2 H3]]].
  rewrite H1. cbn [app]. rewrite <- H3.
  assert (Hsplit : content = nl ++ skipn (length nl) content).
  { rewrite <- H2 at 1. apply eq_sym, firstn_skipn. }
  set (rest := skipn (length nl) content) in *.
  destruct nl as [|c nl]; cbn [truthy negb].
  + cbn [app] in Hsplit. rewrite <- Hsplit.
    set (text := if endsInWord doc then lit " " ++ content else content).
    destruct (streamLoop_dispatched text doc lg n) as [added [Hlog Hd]].
    assert (Hgoal : (if endsInWord doc then lit " " else []) ++ content = text).
    { subst text. destruct (endsInWord doc); reflexivity. }
    destruct onComplete.
    * exists (added ++ [Complete]). cbn [log]. rewrite Hlog, <- app_assoc.
      rewrite dispatched_app, Hd. cbn [dispatched].
      rewrite app_nil_r, concat_singletons.
      split; [reflexivity | symmetry; exact Hgoal].
    * exists added. rewrite Hlog, Hd, concat_singletons.
      split; [reflexivity | symmetry; exact Hgoal].
  + change (pause undisturbed 30
                  (insertAtEnd (c :: nl) (mkStage (Some (mkView doc)) lg n)))
      with (mkStage (Some (mkView (doc ++ c :: nl)))
                    ((lg ++ [Dispatch (c :: nl)]) ++ [Pause 30]) (S n)).
    destruct (streamLoop_dispatched rest (doc ++ c :: nl)
                ((lg ++ [Dispatch (c :: nl)]) ++ [Pause 30]) (S n))
      as [added [Hlog Hd]].
    destruct onComplete.
    * exists ([Dispatch (c :: nl); Pause 30] ++ added ++ [Complete]).
      cbn [log]. rewrite Hlog.
      split; [rewrite <- !app_assoc; reflexivity|].
      rewrite !dispatched_app, Hd.
      change (dispatched [Dispatch (c :: nl); Pause 30]) with [c :: nl].
      change (dispatched [Complete]) with (@nil jsstring).
      rewrite app_nil_r. cbn [app concat]. rewrite concat_singletons.
      symmetry; exact Hsplit.
    * exists ([Dispatch (c :: nl); Pause 30] ++ added).
      rewrite Hlog.
      split; [rewrite <- !app_assoc; reflexivity|].
      rewrite !dispatched_app, Hd.
      change (dispatched [Dispatch (c :: nl); Pause 30]) with [c :: nl].
      cbn [app concat]. rewrite concat_singletons.
      symmetry; exact Hsplit.
Qed.

(** X14.  What one [streamContent] call costs, whatever happens to the
    view meanwhile: with a view at the call it dispatches at most one
    transaction per character plus one, pauses for at most 60 ms per
    character plus 60 ms in all, and calls a callback that was passed
    exactly once.  Left alone, the dispatched pieces put together are the
    separating space, if any, followed by the text. *)
Theorem stream_cost
        (during : nat -> option EditorView -> option EditorView)
        (content doc : jsstring) (onComplete : bool) (view : EditorView)
        (lg : list Effect) (n : nat) :
  (exists added,
      log (streamContent during content onComplete (mkStage (Some view) lg n))
      = lg ++ added
      /\ (elapsed added <= 60 * (Z.of_nat (length content) + 1))%Z
      /\ (length (dispatched added) <= length content + 1)%nat
      /\ completions added = if onComplete then 1%nat else 0%nat)
  /\ (exists added,
        log (streamContent undisturbed content onComplete
                           (mkStage (Some (mkView doc)) lg n))
        = lg ++ added
        /\ concat (dispatched added) = boundary doc content ++ content).
Proof.
  split; [apply streamContent_cost | apply streamContent_pieces].
Qed.

End StreamCostFacts.

(* ================================================================== *)
(** ** The other methods of the editor handle *)
(* ================================================================== *)

Module HandleFacts.
Import Editor EditorFacts.

(** X15.  The plain text [getContent()] returns after the two ways of
    adding text; the block structure of the document is not part of the
    statement.  [appendContent] dispatches one transaction, which
    inserts the text after one space when the plain text of the document
    ends in a character that is not white space.  And, left alone,
    [streamContent] ends with the same plain text as [appendContent]
    whenever the text does not start with a newline or the document does
    not end in such a character. *)
Theorem append_and_stream_agree :
  (forall (doc content : jsstring) (lg : list Effect) (n : nat),
      let st := appendContent content (mkStage (Some (mkView doc)) lg n) in
      getContent st
      = doc ++ (if endsInWord doc then lit " " else []) ++ content
      /\ log st
         = lg ++ [Dispatch ((if endsInWord doc then lit " " else [])
                            ++ content)]
      /\ awaited st = n)
  /\ (forall (doc content : jsstring) (onComplete : bool)
             (lg : list Effect) (n : nat),
        startsWith content [10%N] = false \/ endsInWord doc = false ->
        getContent (streamContent undisturbed content onComplete
                                  (mkStage (Some (mkView doc)) lg n))
        = getContent (appendContent content
                                    (mkStage (Some (mkView doc)) lg n))).
Proof.
  assert (Happend : forall (doc content : jsstring) (lg : list Effect) (n : nat),
    appendContent content (mkStage (Some (mkView doc)) lg n)
    = mkStage (Some (mkView (doc ++ (if endsInWord doc then lit " " else [])
                                 ++ content)))
              (lg ++ [Dispatch ((if endsInWord doc then lit " " else [])
                                ++ content)])
              n).
  { intros doc content lg n.
    unfold appendContent, insertAtEnd. cbn [current textContent log awaited].
    destruct (endsInWord doc); reflexivity. }
  split.
  - intros doc content lg n. cbv zeta. rewrite Happend.
    repeat split.
  - intros doc content onComplete lg n Hsame.
    unfold getContent. rewrite Happend, streamContent_undisturbed.
    cbn [current textContent].
    unfold boundary. destruct Hsame as [H|H]; rewrite H.
    + reflexivity.
    + destruct (startsWith content [10%N]); reflexivity.
Qed.

Lemma append_and_stream_agree_witness :
  getContent (streamContent undisturbed (lit "there") true
                            (mkStage (Some (mkView (lit "Hi"))) [] 0))
  = getContent (appendContent (lit "there")
                              (mkStage (Some (mkView (lit "Hi"))) [] 0)).
Proof.
  exact (proj2 append_and_stream_agree (lit "Hi") (lit "there") true [] 0%nat
           (or_introl eq_refl)).
Defined.

End HandleFacts.

(* ================================================================== *)
(** ** The handler of the Continue button *)
(* ================================================================== *)

Module AppFacts.
Import EditorMachine AiService.
Import AiServiceFacts ClientOutcomeFacts StreamCostFacts EditorFacts.
Import MachineCycleFacts.

Section Handler.

Variable Env : Type.
Variable generateContent :
  jsstring -> jsstring -> Env -> Outcome (option GenerateContentResult) * Env.
Variable undefinedMessage : jsstring.
Variable apiKey : option jsstring.

Lemma handler_fulfilled
      (during : nat -> option Editor.EditorView -> option Editor.EditorView)
      (textContent : jsstring) (a : App.AppWorld Env)
      (out : AIContinuationResponse) (view : Editor.EditorView) :
  trim textContent <> [] ->
  fst (continueWriting generateContent undefinedMessage apiKey
                        (mkRequest textContent) (App.service a)) = Fulfilled out ->
  Editor.current (App.editor a) = Some view ->
  App.handleContinueWriting generateContent undefinedMessage apiKey
                           during textContent true a
  = App.mkApp (snd (continueWriting generateContent undefinedMessage apiKey
                        (mkRequest textContent) (App.service a)))
              (Editor.streamContent during ([10%N; 10%N] ++ continuation out)
                                    true (App.editor a))
              (App.sent a ++ [CONTINUE_WRITING; AI_RESPONSE (continuation out)])
              false.
Proof.
  intros Htext Hok Hview. unfold App.handleContinueWriting.
  destruct (trim textContent) as [|c t] eqn:Et; [contradiction|].
  cbn [truthy negb].
  destruct (continueWriting generateContent undefinedMessage apiKey
                        (mkRequest textContent) (App.service a)) as [o w'] eqn:Hrun.
  cbn [fst snd] in *. subst o.
  destruct (App.editor a) as [cur lg n] eqn:Hed. cbn [Editor.current] in Hview.
  subst cur.
  destruct (streamContent_cost during ([10%N; 10%N] ++ continuation out) true
              view lg n) as [added [Hlog [_ [_ Hc]]]].
  cbn [Editor.log]. rewrite Hlog, completions_app, Hc.
  replace (Editor.completions lg <? Editor.completions lg + 1)%nat with true
    by (symmetry; apply Nat.ltb_lt; lia).
  rewrite <- app_assoc. reflexivity.
Qed.

Lemma handler_rejected
      (during : nat -> option Editor.EditorView -> option Editor.EditorView)
      (textContent : jsstring) (handle : bool) (a : App.AppWorld Env)
      (e : Thrown) :
  trim textContent <> [] ->
  fst (continueWriting generateContent undefinedMessage apiKey
                        (mkRequest textContent) (App.service a)) = Rejected e ->
  App.handleContinueWriting generateContent undefinedMessage apiKey
                           during textContent handle a
  = App.mkApp (snd (continueWriting generateContent undefinedMessage apiKey
                        (mkRequest textContent) (App.service a))) (App.editor a)
              (App.sent a ++ [CONTINUE_WRITING; ERROR (App.errorText e)])
              false.
Proof.
  intros Htext Hfail. unfold App.handleContinueWriting.
  destruct (trim textContent) as [|c t] eqn:Et; [contradiction|].
  cbn [truthy negb].
  destruct (continueWriting generateContent undefinedMessage apiKey
                        (mkRequest textContent) (App.service a)) as [o w'] eqn:Hrun.
  cbn [fst snd] in *. subst o.
  rewrite <- app_assoc. reflexivity.
Qed.

End Handler.

(** X16.  A successful click: when the content is not blank,
    [continueWriting] returns and the editor has a view, the handler
    sends [CONTINUE_WRITING] and then [AI_RESPONSE] with the continuation
    and leaves [isStreaming] off, whatever happens to the view while the
    text is streamed.  Left alone, the editor ends with the continuation
    after two newlines and no space; the machine, started in [idle] with
    that content, ends in [idle] with the continuation after one
    space. *)
Theorem click_success
        (Env : Type)
        (generateContent :
           jsstring -> jsstring -> Env
           -> Outcome (option GenerateContentResult) * Env)
        (undefinedMessage : jsstring) (apiKey : option jsstring)
        (during : nat -> option Editor.EditorView -> option Editor.EditorView)
        (textContent doc : jsstring) (a : App.AppWorld Env)
        (out : AIContinuationResponse)
        (l : bool) (err : option jsstring)
        (Htext : trim textContent <> [])
        (Hok : fst (continueWriting generateContent undefinedMessage apiKey
                                    (mkRequest textContent) (App.service a))
               = Fulfilled out)
        (Hview : Editor.current (App.editor a) = Some (Editor.mkView doc)) :
  let a' := App.handleContinueWriting generateContent undefinedMessage apiKey
                                      during textContent true a in
  let quiet := App.handleContinueWriting generateContent undefinedMessage
                                         apiKey Editor.undisturbed
                                         textContent true a in
  App.sent a' = App.sent a ++ [CONTINUE_WRITING; AI_RESPONSE (continuation out)]
  /\ App.isStreaming a' = false
  /\ Editor.current (App.editor quiet)
     = Some (Editor.mkView (doc ++ [10%N; 10%N] ++ continuation out))
  /\ fold_left transition
               [CONTINUE_WRITING; AI_RESPONSE (continuation out)]
               (mkSnapshot idle (mkContext textContent l err))
     = mkSnapshot idle
         (mkContext (textContent ++ lit " " ++ continuation out) false None).
Proof.
  cbv zeta.
  rewrite (handler_fulfilled Env generateContent undefinedMessage apiKey
             during textContent a out (Editor.mkView doc) Htext Hok Hview).
  rewrite (handler_fulfilled Env generateContent undefinedMessage apiKey
             Editor.undisturbed textContent a out (Editor.mkView doc)
             Htext Hok Hview).
  cbn [App.sent App.isStreaming App.editor].
  split; [reflexivity|]. split; [reflexivity|]. split.
  - destruct (App.editor a) as [cur lg n]. cbn [Editor.current] in Hview.
    subst cur. rewrite streamContent_undisturbed. reflexivity.
  - exact (proj1 (cycle_run textContent l err [] (continuation out) []
                            Htext)).
Qed.

Lemma click_success_witness :
  let a := App.mkApp (mkWorld 0%nat [])
                     (Editor.mkStage (Some (Editor.mkView (lit "Dragons"))) [] 0)
                     [] false in
  Editor.current
    (App.editor (App.handleContinueWriting thirdAnswers (lit "")
                   (Some (lit "key")) Editor.undisturbed (lit "Dragons")
                   true a))
  = Some (Editor.mkView (lit "Dragons" ++ [10%N; 10%N]
                         ++ lit "Once upon a time.")).
Proof.
  exact (proj1 (proj2 (proj2
    (click_success nat thirdAnswers (lit "") (Some (lit "key"))
       Editor.undisturbed (lit "Dragons") (lit "Dragons")
       (App.mkApp (mkWorld 0%nat [])
                  (Editor.mkStage (Some (Editor.mkView (lit "Dragons"))) [] 0)
                  [] false)
       (mkResponse (lit "Once upon a time.")) false None
       ltac:(discriminate) eq_refl eq_refl)))).
Defined.

(** X17.  A failed click and a click on blank content, each under its
    own assumptions.  When the content is not blank and
    [continueWriting] fails, the handler sends [CONTINUE_WRITING] and
    then [ERROR] with the message of the error, which is one of the
    user-facing messages, leaves the editor as it was and [isStreaming]
    off, and the machine, started in [idle] with that content, ends in
    [idle] with the content kept and that message as error.  And on blank
    content the handler does nothing at all, whatever the service would
    do. *)
Theorem click_failure :
  (forall (Env : Type)
          (generateContent :
             jsstring -> jsstring -> Env
             -> Outcome (option GenerateContentResult) * Env)
          (undefinedMessage : jsstring) (apiKey : option jsstring)
          (during : nat -> option Editor.EditorView -> option Editor.EditorView)
          (textContent : jsstring) (handle : bool)
          (a : App.AppWorld Env) (e : Thrown)
          (l : bool) (err : option jsstring),
      trim textContent <> [] ->
      fst (continueWriting generateContent undefinedMessage apiKey
                           (mkRequest textContent) (App.service a))
      = Rejected e ->
      let a' := App.handleContinueWriting generateContent undefinedMessage
                                          apiKey during textContent handle a in
      (exists message,
          e = ErrorObject message
          /\ userFacing message
          /\ App.sent a' = App.sent a ++ [CONTINUE_WRITING; ERROR message]
          /\ fold_left transition [CONTINUE_WRITING; ERROR message]
                       (mkSnapshot idle (mkContext textContent l err))
             = mkSnapshot idle (mkContext textContent false (Some message)))
      /\ App.editor a' = App.editor a
      /\ App.isStreaming a' = false)
  /\ (forall (Env : Type)
             (generateContent :
                jsstring -> jsstring -> Env
                -> Outcome (option GenerateContentResult) * Env)
             (undefinedMessage : jsstring) (apiKey : option jsstring)
             (during : nat -> option Editor.EditorView
                       -> option Editor.EditorView)
             (blankContent : jsstring) (handle : bool) (a : App.AppWorld Env),
        trim blankContent = [] ->
        App.handleContinueWriting generateContent undefinedMessage apiKey
                                  during blankContent handle a = a).
Proof.
  split.
  - intros Env generateContent undefinedMessage apiKey during textContent
           handle a e l err Htext Hfail.
    cbv zeta.
    rewrite (handler_rejected Env generateContent undefinedMessage apiKey
               during textContent handle a e Htext Hfail).
    cbn [App.sent App.isStreaming App.editor].
    split; [|split; reflexivity].
    destruct (continueWriting_rejected Env generateContent undefinedMessage
                apiKey (mkRequest textContent) (App.service a) e Hfail)
      as [message [-> [Hm _]]].
    exists message. cbn [App.errorText].
    split; [reflexivity|]. split; [exact Hm|]. split; [reflexivity|].
    exact (proj2 (cycle_run textContent l err [] [] message Htext)).
  - intros Env generateContent undefinedMessage apiKey during blankContent
           handle a Hblank.
    unfold App.handleContinueWriting. rewrite Hblank. reflexivity.
Qed.

Lemma click_failure_witness :
  let a := App.mkApp (mkWorld 0%nat [])
                     (Editor.mkStage (Some (Editor.mkView (lit "Dragons"))) [] 0)
                     [] false in
  App.sent (App.handleContinueWriting alwaysOverloaded (lit "")
              (Some (lit "key")) Editor.undisturbed (lit "Dragons") true a)
  = [CONTINUE_WRITING; ERROR overloadedMessage]
  /\ App.handleContinueWriting alwaysOverloaded (lit "")
       (Some (lit "key")) Editor.undisturbed (lit " ") true a = a.
Proof.
  cbv zeta. split.
  - destruct (proj1 click_failure nat alwaysOverloaded (lit "")
                (Some (lit "key")) Editor.undisturbed (lit "Dragons") true
                (App.mkApp (mkWorld 0%nat [])
                   (Editor.mkStage (Some (Editor.mkView (lit "Dragons"))) [] 0)
                   [] false)
                (ErrorObject overloadedMessage) false None
                ltac:(discriminate) eq_refl)
      as [[message [Hm [_ [Hsent _]]]] _].
    inversion Hm; subst message. exact Hsent.
  - exact (proj2 click_failure nat alwaysOverloaded (lit "")
             (Some (lit "key")) Editor.undisturbed (lit " ") true
             (App.mkApp (mkWorld 0%nat [])
                (Editor.mkStage (Some (Editor.mkView (lit "Dragons"))) [] 0)
                [] false)
             eq_refl).
Defined.

End AppFacts.

(* ================================================================== *)
(** ** More on the toolbar reconciler *)
(* ================================================================== *)

Module ToolbarMoreFacts.
Import Toolbar ToolbarFacts.

Lemma eqb_refl (a : jsstring) : eqb a a = true.
Proof. apply eqb_eq. reflexivity. Qed.

Lemma eqb_sym (a b : jsstring) : eqb a b = eqb b a.
Proof.
  destruct (eqb a b) eqn:E.
  - apply eqb_eq in E. subst. symmetry. apply eqb_refl.
  - destruct (eqb b a) eqn:E'; [|reflexivity].
    apply eqb_eq in E'. subst. rewrite eqb_refl in E. discriminate.
Qed.

Lemma has_add_bool (n name : jsstring) (set : list jsstring) :
  has (add n set) name = has set name || eqb n name.
Proof.
  unfold add, has. destruct (existsb (eqb n) set) eqn:E.
  - destruct (eqb n name) eqn:En; [|rewrite orb_false_r; reflexivity].
    apply eqb_eq in En. subst. rewrite E. reflexivity.
  - rewrite existsb_app. cbn [existsb]. rewrite orb_false_r, (eqb_sym name n).
    reflexivity.
Qed.

Lemma has_nothing (set : list jsstring) :
  (forall name, has set name = false) -> set = [].
Proof.
  destruct set as [|x set]; [reflexivity|].
  intros H. specialize (H x). unfold has in H. cbn [existsb] in H.
  rewrite eqb_refl in H. discriminate.
Qed.

Lemma find_snoc {A} (p : A -> bool) (l : list A) (a : A) :
  find p (l ++ [a])
  = match find p l with
    | Some x => Some x
    | None => if p a then Some a else None
    end.
Proof.
  induction l as [|b l IH]; cbn [app find]; [reflexivity|].
  destruct (p b); [reflexivity | exact IH].
Qed.

Section CollapsedFacts.

(** The marks a collapsed selection shows, from the front of the list
    on. *)
Lemma cursorMark_fold (ms : list Mark) :
  forall (acc : Acc) (name : jsstring),
    has (acc_marks (fold_left cursorMark ms acc)) name
    = has (acc_marks acc) name
      || existsb (fun m => eqb (typeName m) name) ms.
Proof.
  induction ms as [|m ms IH]; intros acc name.
  - cbn. rewrite orb_false_r. reflexivity.
  - cbn [fold_left existsb]. rewrite IH. unfold cursorMark.
    cbn [acc_marks]. rewrite has_add_bool, orb_assoc. reflexivity.
Qed.

Lemma cursorMark_fold_size (ms : list Mark) :
  forall acc : Acc,
    currentFontSize (fold_left cursorMark ms acc)
    = match find isFontSize (rev ms) with
      | Some mark => sizeOr16 mark
      | None => currentFontSize acc
      end.
Proof.
  induction ms as [|m ms IH]; intros acc; [reflexivity|].
  cbn [fold_left rev]. rewrite IH, find_snoc.
  destruct (find isFontSize (rev ms)); [reflexivity|].
  unfold cursorMark. cbn [currentFontSize]. unfold isFontSize.
  destruct (eqb (typeName m) (lit "fontSize")); reflexivity.
Qed.

End CollapsedFacts.

(** X18.  For a collapsed selection the toolbar shows the stored marks
    when the state has any, even an empty list of them, and otherwise the
    marks at the cursor: a name is active exactly when one of those marks
    has it, and the font size is that of their last [fontSize] mark, or
    ['16px']. *)
Theorem collapsed_selection_marks
        (Doc : Type) (resolveMarks : Doc -> nat -> list Mark)
        (nodesBetween : Doc -> nat -> nat -> list Node)
        (state : EditorState Doc) (name : jsstring)
        (Hcollapsed : empty (selection state) = true) :
  let shown :=
    match storedMarks state with
    | Some ms => ms
    | None => resolveMarks (doc state) (anchor (selection state))
    end in
  has (activeMarks (updateToolbar resolveMarks nodesBetween state)) name
  = existsb (fun m => eqb (typeName m) name) shown
  /\ fontSize (updateToolbar resolveMarks nodesBetween state)
     = lastFontSize shown.
Proof.
  cbv zeta. unfold updateToolbar. rewrite Hcollapsed.
  cbn [activeMarks fontSize]. split.
  - rewrite cursorMark_fold. reflexivity.
  - rewrite cursorMark_fold_size. reflexivity.
Qed.

Lemma collapsed_selection_marks_witness :
  has (activeMarks
         (updateToolbar (fun _ _ => []) treeNodesBetween
                        (mkState halfBold (mkSelection 4 4) (Some [strong]))))
      (lit "strong")
  = true.
Proof.
  exact (proj1
    (collapsed_selection_marks Tree (fun _ _ => []) treeNodesBetween
       (mkState halfBold (mkSelection 4 4) (Some [strong])) (lit "strong")
       eq_refl)).
Defined.

Section RangeFacts.

Variable Doc : Type.
Variable resolveMarks : Doc -> nat -> list Mark.
Variable nodesBetween : Doc -> nat -> nat -> list Node.
Variable state : EditorState Doc.

Let visited : list Node :=
  nodesBetween (doc state) (from (selection state)) (to (selection state)).

(** A name gets into the active set only through a mark of the list. *)
Lemma checkMark_fold_from (name : jsstring) (marksAtStart : list Mark)
      (acc : Acc) :
  has (acc_marks (fold_left (checkMark nodesBetween state) marksAtStart acc))
      name = true ->
  has (acc_marks acc) name = true
  \/ existsb (fun m => eqb (typeName m) name) marksAtStart = true.
Proof.
  revert acc. induction marksAtStart as [|mark rest IH]; intros acc H.
  - left. exact H.
  - cbn [fold_left] in H. apply IH in H. cbn [existsb].
    destruct H as [H|H]; [|right; rewrite H; apply orb_true_r].
    rewrite checkMark_marks in H.
    destruct (forallb _ _); [|auto].
    rewrite has_add_bool in H. apply orb_true_iff in H.
    destruct H as [H|H]; [auto | right; rewrite H; reflexivity].
Qed.

(** What the range callback does to the font size, for one mark. *)
Lemma visit_fold_size (mark : Mark) (nodes : list Node) :
  forall (b : bool) (acc : Acc),
    let acc' := snd (fold_left (visit mark) nodes (b, acc)) in
    if isFontSize mark && negb (foundFontSize acc)
    then match find (fun node => existsb isFontSize (marks node)) nodes with
         | Some node =>
             foundFontSize acc' = true
             /\ currentFontSize acc'
                = match find isFontSize (marks node) with
                  | Some m => sizeOr16 m
                  | None => lit "16px"
                  end
         | None =>
             foundFontSize acc' = false
             /\ currentFontSize acc' = currentFontSize acc
         end
    else foundFontSize acc' = foundFontSize acc
         /\ currentFontSize acc' = currentFontSize acc.
Proof.
  induction nodes as [|node nodes IH]; intros b acc; cbv zeta.
  - cbn [fold_left snd find].
    destruct (isFontSize mark && negb (foundFontSize acc)) eqn:E; auto.
    apply andb_true_iff in E. destruct E as [_ E].
    apply negb_true_iff in E. auto.
  - cbn [fold_left find].
    destruct (visit mark (b, acc) node) as [b' acc1] eqn:Ev.
    specialize (IH b' acc1). cbv zeta in IH.
    unfold visit in Ev. unfold isFontSize in *.
    destruct (eqb (typeName mark) (lit "fontSize")) eqn:Ef; cbn [andb] in *.
    + apply eqb_eq in Ef.
      assert (Hsame : nodeHasMark node mark = existsb isFontSize (marks node)).
      { unfold nodeHasMark, sameType, isFontSize. rewrite Ef. reflexivity. }
      rewrite Hsame in Ev.
      destruct (foundFontSize acc) eqn:Efound; cbn [negb andb] in *.
      * assert (Hacc : acc1 = acc).
        { destruct (existsb isFontSize (marks node)); inversion Ev; reflexivity. }
        subst acc1. rewrite Efound in IH. cbn [negb] in IH. exact IH.
      * destruct (existsb isFontSize (marks node)) eqn:Ehas; cbn [negb andb] in Ev.
        -- assert (Hfind : exists m, find (fun m => eqb (typeName m) (lit "fontSize"))
                                        (marks node) = Some m).
           { apply existsb_exists in Ehas. destruct Ehas as [m [Hin Hm]].
             destruct (find (fun m => eqb (typeName m) (lit "fontSize"))
                            (marks node)) as [m'|] eqn:Ef'; [eauto|].
             pose proof (find_none _ _ Ef' m Hin) as Hn.
             cbv beta in Hn. unfold isFontSize in Hm. congruence. }
           destruct Hfind as [m Hm]. rewrite Hm in Ev. inversion Ev; subst.
           cbn [foundFontSize currentFontSize negb] in IH.
           unfold isFontSize in Ehas. rewrite Ehas, Hm. exact IH.
        -- inversion Ev; subst. rewrite Efound in IH. cbn [negb] in IH.
           unfold isFontSize in Ehas. rewrite Ehas. exact IH.
    + assert (Hacc : acc1 = acc).
      { destruct (negb (nodeHasMark node mark)); inversion Ev; reflexivity. }
      subst acc1. exact IH.
Qed.

Lemma checkMark_size (acc : Acc) (mark : Mark) :
  let acc' := checkMark nodesBetween state acc mark in
  if isFontSize mark && negb (foundFontSize acc)
  then match find (fun node => existsb isFontSize (marks node)) visited with
       | Some node =>
           foundFontSize acc' = true
           /\ currentFontSize acc' = firstFontSize visited
       | None =>
           foundFontSize acc' = false
           /\ currentFontSize acc' = currentFontSize acc
       end
  else foundFontSize acc' = foundFontSize acc
       /\ currentFontSize acc' = currentFontSize acc.
Proof.
  cbv zeta. unfold checkMark. fold visited.
  pose proof (visit_fold_size mark visited true acc) as H. cbv zeta in H.
  destruct (fold_left (visit mark) visited (true, acc)) as [b acc1].
  cbn [snd] in H.
  assert (Hkeep : forall x : Acc,
            foundFontSize (if b then mkAcc (add (typeName mark) (acc_marks x))
                                            (currentFontSize x) (foundFontSize x)
                           else x) = foundFontSize x
            /\ currentFontSize (if b then mkAcc (add (typeName mark) (acc_marks x))
                                                (currentFontSize x) (foundFontSize x)
                                else x) = currentFontSize x)
    by (intros x; destruct b; auto).
  destruct (Hkeep acc1) as [-> ->].
  unfold firstFontSize.
  destruct (isFontSize mark && negb (foundFontSize acc)); [|exact H].
  destruct (find (fun node => existsb isFontSize (marks node)) visited);
    exact H.
Qed.

(** The font size after the marks at the start were gone through. *)
Lemma checkMark_fold_size (marksAtStart : list Mark) :
  forall acc : Acc,
    let acc' := fold_left (checkMark nodesBetween state) marksAtStart acc in
    if foundFontSize acc
    then currentFontSize acc' = currentFontSize acc
    else currentFontSize acc'
         = if existsb isFontSize marksAtStart
           then match find (fun node => existsb isFontSize (marks node))
                           visited with
                | Some _ => firstFontSize visited
                | None => currentFontSize acc
                end
           else currentFontSize acc.
Proof.
  induction marksAtStart as [|mark rest IH]; intros acc; cbv zeta.
  - cbn. destruct (foundFontSize acc); reflexivity.
  - cbn [fold_left existsb].
    pose proof (checkMark_size acc mark) as H. cbv zeta in H.
    specialize (IH (checkMark nodesBetween state acc mark)). cbv zeta in IH.
    destruct (foundFontSize acc) eqn:Efound.
    + rewrite andb_false_r in H. destruct H as [Hf Hc].
      rewrite Hf in IH. rewrite IH. exact Hc.
    + rewrite andb_true_r in H.
      destruct (isFontSize mark) eqn:Em; cbn [orb].
      * destruct (find (fun node => existsb isFontSize (marks node)) visited)
          eqn:Efind; destruct H as [Hf Hc]; rewrite Hf in IH.
        -- rewrite IH. exact Hc.
        -- rewrite IH. destruct (existsb isFontSize rest); exact Hc.
      * destruct H as [Hf Hc]. rewrite Hf in IH. rewrite IH, Hc.
        reflexivity.
Qed.

End RangeFacts.

(** X19.  Two statements about a range selection, each under its own
    assumptions.  For every document engine, state with a range
    selection and name: the name is active only if the start of the range
    resolves to a mark of that name.  And when the range iteration visits
    one node without any mark (as the enclosing paragraph is, which the
    iteration visits before its text), no mark is active at all. *)
Theorem range_needs_start_mark_and_marked_nodes :
  (forall (Doc : Type) (resolveMarks : Doc -> nat -> list Mark)
          (nodesBetween : Doc -> nat -> nat -> list Node)
          (state : EditorState Doc) (name : jsstring),
      empty (selection state) = false ->
      implb (has (activeMarks (updateToolbar resolveMarks nodesBetween state))
                 name)
            (existsb (fun m => eqb (typeName m) name)
                     (resolveMarks (doc state) (from (selection state))))
      = true)
  /\ (forall (Doc : Type) (resolveMarks : Doc -> nat -> list Mark)
             (nodesBetween : Doc -> nat -> nat -> list Node)
             (state : EditorState Doc) (node : Node),
        empty (selection state) = false ->
        In node (nodesBetween (doc state) (from (selection state))
                              (to (selection state))) ->
        marks node = [] ->
        activeMarks (updateToolbar resolveMarks nodesBetween state) = []).
Proof.
  split.
  - intros Doc resolveMarks nodesBetween state name Hrange.
    unfold updateToolbar. rewrite Hrange.
    cbn [activeMarks].
    destruct (has (acc_marks (fold_left (checkMark nodesBetween state) _ _)) name)
      eqn:Hhas; [|reflexivity].
    apply checkMark_fold_from in Hhas.
    destruct Hhas as [Hhas|Hhas]; [discriminate Hhas|].
    rewrite Hhas. reflexivity.
  - intros Doc resolveMarks nodesBetween state node Hrange Hin Hplain.
    apply has_nothing. intros nm.
    unfold updateToolbar. rewrite Hrange. cbn [activeMarks].
    destruct (has (acc_marks (fold_left (checkMark nodesBetween state) _ _)) nm)
      eqn:Hhas; [|reflexivity].
    apply checkMark_fold_has in Hhas.
    destruct Hhas as [Hhas | [mark [_ Hall]]]; [discriminate Hhas|].
    rewrite forallb_forall in Hall. specialize (Hall node Hin).
    unfold nodeHasMark in Hall. rewrite Hplain in Hall. discriminate Hall.
Qed.

Lemma range_needs_start_mark_and_marked_nodes_witness :
  implb (has (activeMarks (updateToolbar (fun _ _ => [strong]) treeNodesBetween
                             (mkState halfBold (mkSelection 1 3) None)))
             (lit "em"))
        (existsb (fun m => eqb (typeName m) (lit "em")) [strong])
  = true
  /\ activeMarks (updateToolbar (fun _ _ => [strong]) treeNodesBetween
                                (mkState halfBold (mkSelection 1 3) None))
     = [].
Proof.
  split.
  - exact (proj1 range_needs_start_mark_and_marked_nodes Tree
             (fun _ _ => [strong]) treeNodesBetween
             (mkState halfBold (mkSelection 1 3) None) (lit "em") eq_refl).
  - exact (proj2 range_needs_start_mark_and_marked_nodes Tree
             (fun _ _ => [strong]) treeNodesBetween
             (mkState halfBold (mkSelection 1 3) None) (mkNode [])
             eq_refl (or_introl eq_refl) eq_refl).
Defined.

(** X20.  The font size the toolbar reports for a range: when the start
    of the range resolves to a [fontSize] mark, the size of the first
    visited node that has a [fontSize] mark, also when other nodes of the
    range have none; ['16px'] when no node has one or the start resolves
    to no [fontSize] mark. *)
Theorem range_font_size
        (Doc : Type) (resolveMarks : Doc -> nat -> list Mark)
        (nodesBetween : Doc -> nat -> nat -> list Node)
        (state : EditorState Doc)
        (Hrange : empty (selection state) = false) :
  fontSize (updateToolbar resolveMarks nodesBetween state)
  = if existsb isFontSize
               (resolveMarks (doc state) (from (selection state)))
    then firstFontSize
           (nodesBetween (doc state) (from (selection state))
                         (to (selection state)))
    else lit "16px".
Proof.
  unfold updateToolbar. rewrite Hrange. cbn [fontSize].
  pose proof (checkMark_fold_size Doc nodesBetween state
                (resolveMarks (doc state) (from (selection state)))
                (mkAcc [] (lit "16px") false)) as H.
  cbv zeta in H. cbn [foundFontSize currentFontSize] in H.
  rewrite H.
  destruct (existsb isFontSize _); [|reflexivity].
  unfold firstFontSize.
  destruct (find (fun node => existsb isFontSize (marks node)) _);
    reflexivity.
Qed.

Lemma range_font_size_witness :
  fontSize
    (updateToolbar
       (fun _ _ => [mkMark (lit "fontSize") (Some (lit "24px"))])
       (fun (d : list Node) _ _ => d)
       (mkState [mkNode []; mkNode [mkMark (lit "fontSize") (Some (lit "24px"))];
                 mkNode []]
                (mkSelection 1 9) None))
  = lit "24px".
Proof.
  exact (range_font_size (list Node)
           (fun _ _ => [mkMark (lit "fontSize") (Some (lit "24px"))])
           (fun (d : list Node) _ _ => d)
           (mkState [mkNode []; mkNode [mkMark (lit "fontSize") (Some (lit "24px"))];
                     mkNode []]
                    (mkSelection 1 9) None)
           eq_refl).
Defined.

End ToolbarMoreFacts.
